(** * The JSON-file user store ([storage.JSONStore])

    A shallow embedding of the [storage] package of the user API: the
    in-memory index [users : map[string]models.User], the snapshot file it
    is loaded from and rewritten to, and the five store operations
    [GetAll], [GetByID], [Create], [Update], [Delete] together with
    [NewJSONStore], [load] and [save].

    What the Go code leaves to its environment is made explicit:
    - the order in which [range] walks a map is an argument [o] of every
      function that iterates, constrained only to visit each entry once;
    - the outcome of [os.MkdirAll] and of [os.WriteFile] is an argument of
      the call that performs it; the outcome of [os.ReadFile] is read off
      the file system state;
    - [encoding/json] is an interface ([JSONCodec]) whose round-trip law is
      a hypothesis of exactly the theorems that need it.
    The [sync.RWMutex] is not modelled: every mutating operation holds the
    write lock from its first to its last statement, so operations are
    the atomic steps of the model. *)

From stdpp Require Import gmap strings list fin_maps.
From Stdlib Require Import Strings.Byte.

Local Open Scope string_scope.

(** ** Records *)

(** [time.Time], the type of the two timestamps of [models.User]. Neither
    the store nor the handlers inspect a timestamp: they copy it. It is kept
    as the RFC3339 text that it has in the snapshot. *)
Definition Time := string.

Record User := mkUser {
  ID : string;
  Name : string;
  Email : string;
  CreatedAt : Time;
  UpdatedAt : Time
}.

#[global] Instance User_eq_dec : EqDecision User.
Proof. solve_decision. Defined.

(** The zero value [models.User{}]. *)
Definition zeroUser : User := mkUser "" "" "" "0001-01-01T00:00:00Z" "0001-01-01T00:00:00Z".

(** ** Errors *)

(** [ErrUserNotFound] and [ErrUserExists] are the two sentinels of the
    package; the other constructors are the errors that reach the caller
    from [os] and [encoding/json]. *)
Inductive error :=
| ErrUserNotFound
| ErrUserExists
| ErrNotExist
| ErrOS (msg : string)
| ErrJSON.

#[global] Instance error_eq_dec : EqDecision error.
Proof. solve_decision. Defined.

(** [os.IsNotExist]. *)
Definition IsNotExist (e : error) : bool :=
  match e with ErrNotExist => true | _ => false end.

Inductive result (A : Type) :=
| Ok (a : A)
| Err (e : error).
Arguments Ok {A} a.
Arguments Err {A} e.

(** ** The file system *)

Inductive file :=
| Regular (data : list byte)
| Unreadable (msg : string).

(** [files] maps a path to what is found there (no entry: the path does not
    exist); [reads] counts the calls of [os.ReadFile]. *)
Record FS := mkFS {
  files : gmap string file;
  reads : nat
}.

Definition ReadFile (path : string) (fs : FS) : result (list byte) * FS :=
  let fs' := mkFS (files fs) (S (reads fs)) in
  match files fs !! path with
  | None => (Err ErrNotExist, fs')
  | Some (Regular data) => (Ok data, fs')
  | Some (Unreadable msg) => (Err (ErrOS msg), fs')
  end.

(** What a call of [os.WriteFile] does: it writes all the data, or it fails
    with a message and leaves [residue] at the path (the old file when the
    open failed, a truncated one when the write did, nothing at all). *)
Inductive write_outcome :=
| Written
| WriteFails (msg : string) (residue : option file).

Definition WriteFile (w : write_outcome) (path : string) (data : list byte) (fs : FS)
  : FS * option error :=
  match w with
  | Written => (mkFS (<[path := Regular data]> (files fs)) (reads fs), None)
  | WriteFails msg None => (mkFS (delete path (files fs)) (reads fs), Some (ErrOS msg))
  | WriteFails msg (Some f) => (mkFS (<[path := f]> (files fs)) (reads fs), Some (ErrOS msg))
  end.

(** ** Map iteration *)

(** A [range] over the index visits the entries in an order the runtime
    picks. An [order] is one such pick for every map; it is [fair] when it
    yields each entry exactly once. *)
Definition order := gmap string User → list (string * User).

Definition fair (o : order) : Prop := ∀ m, o m ≡ₚ map_to_list m.

(** ** encoding/json *)

Class JSONCodec := {
  MarshalIndent : list User → option (list byte);
  Unmarshal : list byte → option (list User)
}.

(** ** The store *)

Record JSONStore := mkStore {
  filePath : string;
  users : gmap string User
}.

Section Store.
Context `{JSONCodec}.

(** [load] reads users from the JSON file into memory. *)
Definition load (s : JSONStore) (fs : FS) : JSONStore * FS * option error :=
  let '(r, fs') := ReadFile (filePath s) fs in
  match r with
  | Err e => (s, fs', Some e)
  | Ok data =>
      if decide (length data = 0) then (s, fs', None)
      else
        match Unmarshal data with
        | None => (s, fs', Some ErrJSON)
        | Some us =>
            (mkStore (filePath s)
               (foldl (λ m user, <[ID user := user]> m) ∅ us),
             fs', None)
        end
  end.

(** [NewJSONStore] creates a new JSON store instance; [mk] is the outcome
    of [os.MkdirAll] on the directory of [path]. *)
Definition NewJSONStore (mk : option string) (path : string) (fs : FS)
  : result JSONStore * FS :=
  let store := mkStore path ∅ in
  match mk with
  | Some msg => (Err (ErrOS msg), fs)
  | None =>
      let '(store', fs', err) := load store fs in
      match err with
      | Some e => if negb (IsNotExist e) then (Err e, fs') else (Ok store', fs')
      | None => (Ok store', fs')
      end
  end.

(** [save] writes all users from memory to the JSON file. *)
Definition save (o : order) (w : write_outcome) (s : JSONStore) (fs : FS)
  : FS * option error :=
  let us := (o (users s)).*2 in
  match MarshalIndent us with
  | None => (fs, Some ErrJSON)
  | Some data => WriteFile w (filePath s) data fs
  end.

(** [GetAll] returns all users. *)
Definition GetAll (o : order) (s : JSONStore) : list User * option error :=
  ((o (users s)).*2, None).

(** [GetByID] returns a user by ID. *)
Definition GetByID (id : string) (s : JSONStore) : User * option error :=
  match users s !! id with
  | None => (zeroUser, Some ErrUserNotFound)
  | Some user => (user, None)
  end.

(** [Create] adds a new user. *)
Definition Create (o : order) (w : write_outcome) (user : User)
    (s : JSONStore) (fs : FS) : JSONStore * FS * option error :=
  if existsb (λ kv, bool_decide (Email kv.2 = Email user)) (o (users s))
  then (s, fs, Some ErrUserExists)
  else
    let s' := mkStore (filePath s) (<[ID user := user]> (users s)) in
    let '(fs', err) := save o w s' fs in
    (s', fs', err).

(** [Update] modifies an existing user. *)
Definition Update (o : order) (w : write_outcome) (user : User)
    (s : JSONStore) (fs : FS) : JSONStore * FS * option error :=
  match users s !! ID user with
  | None => (s, fs, Some ErrUserNotFound)
  | Some _ =>
      if existsb (λ kv, bool_decide (Email kv.2 = Email user)
                        && negb (bool_decide (kv.1 = ID user))) (o (users s))
      then (s, fs, Some ErrUserExists)
      else
        let s' := mkStore (filePath s) (<[ID user := user]> (users s)) in
        let '(fs', err) := save o w s' fs in
        (s', fs', err)
  end.

(** [Delete] removes a user by ID. *)
Definition Delete (o : order) (w : write_outcome) (id : string)
    (s : JSONStore) (fs : FS) : JSONStore * FS * option error :=
  match users s !! id with
  | None => (s, fs, Some ErrUserNotFound)
  | Some _ =>
      let s' := mkStore (filePath s) (delete id (users s)) in
      let '(fs', err) := save o w s' fs in
      (s', fs', err)
  end.

End Store.

(** ** Command sequences *)

Inductive op :=
| OpCreate (user : User)
| OpUpdate (user : User)
| OpDelete (id : string).

(** One call of a mutating operation, with what the runtime and the file
    system do during it. *)
Record call := mkCall {
  call_order : order;
  call_write : write_outcome;
  call_op : op
}.

Section Exec.
Context `{JSONCodec}.

Definition step (c : call) (s : JSONStore) (fs : FS) : JSONStore * FS * option error :=
  match call_op c with
  | OpCreate user => Create (call_order c) (call_write c) user s fs
  | OpUpdate user => Update (call_order c) (call_write c) user s fs
  | OpDelete id => Delete (call_order c) (call_write c) id s fs
  end.

(** [exec cs s fs] runs the calls [cs] one after the other and returns the
    final store and file system with the error of each call. *)
Fixpoint exec (cs : list call) (s : JSONStore) (fs : FS)
  : JSONStore * FS * list (option error) :=
  match cs with
  | [] => (s, fs, [])
  | c :: cs' =>
      let '(s1, fs1, e) := step c s fs in
      let '(s2, fs2, es) := exec cs' s1 fs1 in
      (s2, fs2, e :: es)
  end.

(** The records of the snapshot file at [path], as [load] would take them
    in: none for a missing, unreadable, zero-byte or malformed file. *)
Definition snapshot_records (path : string) (fs : FS) : list User :=
  match files fs !! path with
  | Some (Regular data) =>
      if decide (length data = 0) then []
      else match Unmarshal data with Some us => us | None => [] end
  | _ => []
  end.

(** The codec gives back the list [us] from the bytes it made of it, and
    these are not zero bytes. *)
Definition roundtrips (us : list User) : Prop :=
  ∀ data, MarshalIndent us = Some data →
          length data ≠ 0 ∧ Unmarshal data = Some us.

(** The file at the path of the store holds the bytes of a listing of the
    index. *)
Definition synced (s : JSONStore) (fs : FS) : Prop :=
  ∃ o data, fair o
            ∧ MarshalIndent ((o (users s)).*2) = Some data
            ∧ files fs !! filePath s = Some (Regular data).

End Exec.

(** ** Predicates on the index *)

(** No two live records share an email. *)
Definition unique_emails (m : gmap string User) : Prop :=
  ∀ i j ui uj, m !! i = Some ui → m !! j = Some uj → Email ui = Email uj → i = j.

(** Every record is filed under its own id. *)
Definition keyed (m : gmap string User) : Prop :=
  ∀ k u, m !! k = Some u → ID u = k.

(** Some live record has the email [e]. *)
Definition email_taken (e : string) (m : gmap string User) : Prop :=
  ∃ k u, m !! k = Some u ∧ Email u = e.

(** Some live record filed under an id other than [id] has the email [e]. *)
Definition email_taken_by_other (id e : string) (m : gmap string User) : Prop :=
  ∃ k u, m !! k = Some u ∧ k ≠ id ∧ Email u = e.


(** The records of the index. *)
Definition records (m : gmap string User) : list User := (map_to_list m).*2.

(** ** A concrete environment *)

(** A codec with a tagged wire format: a field is its bytes, each behind a
    [01] tag, closed by [00]; a record is its five fields; a list is the
    records between brackets. It stands in for [encoding/json] where the
    store is run on concrete inputs. *)
Module Wire.

Fixpoint put_field (bs : list byte) : list byte :=
  match bs with
  | [] => [x00]
  | b :: r => x01 :: b :: put_field r
  end.

Fixpoint get_field (l : list byte) : option (list byte * list byte) :=
  match l with
  | [] => None
  | t :: r =>
      if Byte.eqb t x00 then Some ([], r)
      else if Byte.eqb t x01 then
        match r with
        | [] => None
        | b :: r' =>
            match get_field r' with
            | Some (f, rest) => Some (b :: f, rest)
            | None => None
            end
        end
      else None
  end.

Definition put_string (s : string) : list byte := put_field (String.list_byte_of_string s).

Definition get_string (l : list byte) : option (string * list byte) :=
  '(f, rest) ← get_field l; Some (String.string_of_list_byte f, rest).

Definition put_user (u : User) : list byte :=
  put_string (ID u) ++ put_string (Name u) ++ put_string (Email u)
    ++ put_string (CreatedAt u) ++ put_string (UpdatedAt u).

Definition get_user (l : list byte) : option (User * list byte) :=
  '(id, l1) ← get_string l;
  '(name, l2) ← get_string l1;
  '(email, l3) ← get_string l2;
  '(created, l4) ← get_string l3;
  '(updated, l5) ← get_string l4;
  Some (mkUser id name email created updated, l5).

Fixpoint get_users (fuel : nat) (l : list byte) : option (list User) :=
  match l with
  | [t] => if Byte.eqb t x5d then Some [] else None
  | _ =>
      match fuel with
      | 0 => None
      | S n =>
          '(u, rest) ← get_user l;
          us ← get_users n rest;
          Some (u :: us)
      end
  end.

Definition marshal (us : list User) : option (list byte) :=
  Some (x5b :: flat_map put_user us ++ [x5d]).

Definition unmarshal (l : list byte) : option (list User) :=
  match l with
  | t :: r => if Byte.eqb t x5b then get_users (length r) r else None
  | [] => None
  end.

End Wire.

Definition wireCodec : JSONCodec := {|
  MarshalIndent := Wire.marshal;
  Unmarshal := Wire.unmarshal |}.

Definition canonical : order := map_to_list.

Definition alice : User := mkUser "1" "Alice" "a@x.com" "t0" "t0".
Definition bob : User := mkUser "2" "Bob" "b@x.com" "t1" "t1".

Definition users_json : string := "data/users.json".
Definition s0 : JSONStore := mkStore users_json ∅.
Definition fs0 : FS := mkFS ∅ 0.

Definition s_alice : JSONStore := mkStore users_json (<["1" := alice]> ∅).

Definition disk_full : write_outcome := WriteFails "no space left on device" None.

Definition create (user : User) : call := mkCall canonical Written (OpCreate user).
Definition update (user : User) : call := mkCall canonical Written (OpUpdate user).
Definition remove (id : string) : call := mkCall canonical Written (OpDelete id).

(** The bytes of a snapshot in which two records are filed under the id 1. *)
Definition two_under_one : list byte :=
  x5b :: Wire.put_user alice
      ++ Wire.put_user (mkUser "1" "Alice" "c@x.com" "t0" "t2") ++ [x5d].

(** ** The HTTP handlers ([handlers.UserHandler]) *)

(** What a handler hands to the logger, the span and the meters is kept as
    a list of events, in the order of the calls. *)
Inductive value :=
| VStr (s : string)
| VInt (n : Z)
| VErr (e : error).

Inductive level := LevelInfo | LevelWarn | LevelError.

(** The four instruments of [NewUserHandler]. *)
Inductive metric := userCounter | usersCreated | usersDeleted | userOperations.

#[global] Instance metric_eq_dec : EqDecision metric.
Proof. solve_decision. Defined.

Inductive event :=
| Log (lv : level) (msg : string) (args : list (string * value))
| SetAttributes (attrs : list (string * value))
| RecordError (e : error)
| Add (m : metric) (incr : Z) (attrs : list (string * value)).

(** The argument of [c.JSON]: [gin.H{"error": msg}], a user, the users, or
    [nil]. *)
Inductive body :=
| ErrorBody (msg : string)
| UserBody (u : User)
| UsersBody (us : list User)
| NilBody.

Record response := mkResponse {
  status : Z;
  payload : body
}.

(** The status codes of [net/http] that the handlers use. *)
Definition StatusOK : Z := 200.
Definition StatusCreated : Z := 201.
Definition StatusNoContent : Z := 204.
Definition StatusBadRequest : Z := 400.
Definition StatusNotFound : Z := 404.
Definition StatusConflict : Z := 409.
Definition StatusInternalServerError : Z := 500.

(** The outcome of [c.ShouldBindJSON] on a [models.CreateUserRequest] or a
    [models.UpdateUserRequest]: the message of the error, or the two fields
    [Name] and [Email] of the request. *)
Inductive binding :=
| BindError (msg : string)
| Bound (name email : string).

(** No request runs between two calls. *)
Definition undisturbed (s : JSONStore) (fs : FS) : JSONStore * FS := (s, fs).

Section Handlers.
Context `{JSONCodec}.

(** [NewUserHandler]: [e1] to [e4] are the errors of the four instrument
    constructors, in the order of the calls; the gauge is given the number
    of users in the store. *)
Definition NewUserHandler (o : order) (e1 e2 e3 e4 : option string) (s : JSONStore)
  : list event :=
  let failed (msg : string) (r : option string) : list event :=
    match r with
    | Some e => [Log LevelError msg [("error", VStr e)]]
    | None => []
    end in
  (failed "Failed to create user counter metric" e1
   ++ failed "Failed to create users created metric" e2
   ++ failed "Failed to create users deleted metric" e3
   ++ failed "Failed to create user operations metric" e4
   ++ match GetAll o s with
      | (us, None) => [Add userCounter (Z.of_nat (length us)) []]
      | (_, Some _) => []
      end)%list.

(** [GET /users]. *)
Definition UserHandler_GetAll (o : order) (s : JSONStore) : response * list event :=
  let pre := [Log LevelInfo "Fetching all users" [];
              Add userOperations 1 [("operation", VStr "get_all")]] in
  match GetAll o s with
  | (_, Some err) =>
      (mkResponse StatusInternalServerError (ErrorBody "Failed to fetch users"),
       app pre [RecordError err;
               Log LevelError "Failed to fetch users" [("error", VErr err)]])
  | (us, None) =>
      (mkResponse StatusOK (UsersBody us),
       app pre [SetAttributes [("user_count", VInt (Z.of_nat (length us)))];
               Log LevelInfo "Successfully fetched users"
                 [("count", VInt (Z.of_nat (length us)))]])
  end.

(** [GET /users/:id]. *)
Definition UserHandler_GetByID (id : string) (s : JSONStore) : response * list event :=
  let pre := [SetAttributes [("user.id", VStr id)];
              Log LevelInfo "Fetching user by ID" [("user_id", VStr id)];
              Add userOperations 1 [("operation", VStr "get_by_id")]] in
  match GetByID id s with
  | (_, Some err) =>
      if decide (err = ErrUserNotFound) then
        (mkResponse StatusNotFound (ErrorBody "User not found"),
         app pre [Log LevelWarn "User not found" [("user_id", VStr id)]])
      else
        (mkResponse StatusInternalServerError (ErrorBody "Failed to fetch user"),
         app pre [RecordError err;
                 Log LevelError "Failed to fetch user"
                   [("user_id", VStr id); ("error", VErr err)]])
  | (user, None) =>
      (mkResponse StatusOK (UserBody user),
       app pre [Log LevelInfo "Successfully fetched user" [("user_id", VStr id)]])
  end.

(** [POST /users]; [uuid] is what [uuid.New().String()] gives and [now] what
    [time.Now()] gives. *)
Definition UserHandler_Create (o : order) (w : write_outcome) (uuid : string) (now : Time)
    (b : binding) (s : JSONStore) (fs : FS) : JSONStore * FS * response * list event :=
  let pre := [Add userOperations 1 [("operation", VStr "create")]] in
  match b with
  | BindError msg =>
      (s, fs, mkResponse StatusBadRequest (ErrorBody msg),
       app pre [Log LevelWarn "Invalid request body" [("error", VStr msg)]])
  | Bound name email =>
      let user := mkUser uuid name email now now in
      let pre := app pre [Log LevelInfo "Creating new user"
                           [("name", VStr name); ("email", VStr email)];
                         SetAttributes [("user.id", VStr (ID user));
                                        ("user.email", VStr (Email user))]] in
      let '(s', fs', err) := Create o w user s fs in
      match err with
      | Some err =>
          if decide (err = ErrUserExists) then
            (s', fs',
             mkResponse StatusConflict (ErrorBody "User with this email already exists"),
             app pre [Log LevelWarn "User with email already exists"
                       [("email", VStr email)]])
          else
            (s', fs',
             mkResponse StatusInternalServerError (ErrorBody "Failed to create user"),
             app pre [RecordError err;
                     Log LevelError "Failed to create user" [("error", VErr err)]])
      | None =>
          (s', fs', mkResponse StatusCreated (UserBody user),
           app pre [Add usersCreated 1 []; Add userCounter 1 [];
                   Log LevelInfo "Successfully created user"
                     [("user_id", VStr (ID user))]])
      end
  end.

(** [PUT /users/:id]. The handler calls [GetByID] and then [Update] of the
    store, and the lock of the store is free between the two calls:
    [between] is what the requests that run there do to the store and the
    file system ([undisturbed] when none does). *)
Definition UserHandler_Update (o : order) (w : write_outcome) (id : string) (now : Time)
    (b : binding) (between : JSONStore → FS → JSONStore * FS)
    (s : JSONStore) (fs : FS) : JSONStore * FS * response * list event :=
  let pre := [SetAttributes [("user.id", VStr id)];
              Add userOperations 1 [("operation", VStr "update")]] in
  match b with
  | BindError msg =>
      (s, fs, mkResponse StatusBadRequest (ErrorBody msg),
       app pre [Log LevelWarn "Invalid request body" [("error", VStr msg)]])
  | Bound name email =>
      let pre := app pre [Log LevelInfo "Updating user"
                           [("user_id", VStr id); ("name", VStr name);
                            ("email", VStr email)]] in
      match GetByID id s with
      | (_, Some err) =>
          if decide (err = ErrUserNotFound) then
            (s, fs, mkResponse StatusNotFound (ErrorBody "User not found"),
             app pre [Log LevelWarn "User not found" [("user_id", VStr id)]])
          else
            (s, fs,
             mkResponse StatusInternalServerError (ErrorBody "Failed to update user"),
             app pre [RecordError err;
                     Log LevelError "Failed to fetch user for update"
                       [("user_id", VStr id); ("error", VErr err)]])
      | (existingUser, None) =>
          let user := mkUser id name email (CreatedAt existingUser) now in
          let '(s1, fs1) := between s fs in
          let '(s', fs', err) := Update o w user s1 fs1 in
          match err with
          | Some err =>
              if decide (err = ErrUserExists) then
                (s', fs',
                 mkResponse StatusConflict (ErrorBody "Email already in use by another user"),
                 app pre [Log LevelWarn "Email already in use" [("email", VStr email)]])
              else
                (s', fs',
                 mkResponse StatusInternalServerError (ErrorBody "Failed to update user"),
                 app pre [RecordError err;
                         Log LevelError "Failed to update user"
                           [("user_id", VStr id); ("error", VErr err)]])
          | None =>
              (s', fs', mkResponse StatusOK (UserBody user),
               app pre [Log LevelInfo "Successfully updated user" [("user_id", VStr id)]])
          end
      end
  end.

(** [DELETE /users/:id]. *)
Definition UserHandler_Delete (o : order) (w : write_outcome) (id : string)
    (s : JSONStore) (fs : FS) : JSONStore * FS * response * list event :=
  let pre := [SetAttributes [("user.id", VStr id)];
              Log LevelInfo "Deleting user" [("user_id", VStr id)];
              Add userOperations 1 [("operation", VStr "delete")]] in
  let '(s', fs', err) := Delete o w id s fs in
  match err with
  | Some err =>
      if decide (err = ErrUserNotFound) then
        (s', fs', mkResponse StatusNotFound (ErrorBody "User not found"),
         app pre [Log LevelWarn "User not found" [("user_id", VStr id)]])
      else
        (s', fs',
         mkResponse StatusInternalServerError (ErrorBody "Failed to delete user"),
         app pre [RecordError err;
                 Log LevelError "Failed to delete user"
                   [("user_id", VStr id); ("error", VErr err)]])
  | None =>
      (s', fs', mkResponse StatusNoContent NilBody,
       app pre [Add usersDeleted 1 []; Add userCounter (-1) [];
               Log LevelInfo "Successfully deleted user" [("user_id", VStr id)]])
  end.

End Handlers.

(** ** Requests *)

(** The five routes of the [/users] group, each with what the handler takes
    from the request and from the clock and the id generator. *)
Inductive request :=
| GET_users
| GET_user (id : string)
| POST_users (uuid : string) (now : Time) (b : binding)
| PUT_user (id : string) (now : Time) (b : binding)
| DELETE_user (id : string).

Record exchange := mkExchange {
  ex_order : order;
  ex_write : write_outcome;
  ex_request : request
}.

Section Serve.
Context `{JSONCodec}.

Definition serve (x : exchange) (s : JSONStore) (fs : FS)
  : JSONStore * FS * response * list event :=
  match ex_request x with
  | GET_users =>
      let '(r, evs) := UserHandler_GetAll (ex_order x) s in (s, fs, r, evs)
  | GET_user id =>
      let '(r, evs) := UserHandler_GetByID id s in (s, fs, r, evs)
  | POST_users uuid now b => UserHandler_Create (ex_order x) (ex_write x) uuid now b s fs
  | PUT_user id now b =>
      UserHandler_Update (ex_order x) (ex_write x) id now b undisturbed s fs
  | DELETE_user id => UserHandler_Delete (ex_order x) (ex_write x) id s fs
  end.

(** [serve_all xs s fs] answers the requests [xs] one after the other, each
    handler running from its first to its last statement before the next; it
    returns the final store and file system, the responses and all the
    events. *)
Fixpoint serve_all (xs : list exchange) (s : JSONStore) (fs : FS)
  : JSONStore * FS * list response * list event :=
  match xs with
  | [] => (s, fs, [], [])
  | x :: xs' =>
      let '(s1, fs1, r, evs) := serve x s fs in
      let '(s2, fs2, rs, evs') := serve_all xs' s1 fs1 in
      (s2, fs2, r :: rs, app evs evs')
  end.

End Serve.

(** The value of an instrument: the sum of what was added to it. *)
Fixpoint total (m : metric) (evs : list event) : Z :=
  match evs with
  | [] => 0
  | Add m' n _ :: evs' => if decide (m' = m) then (n + total m evs')%Z else total m evs'
  | _ :: evs' => total m evs'
  end.

(** The uuids that the [POST] requests of [xs] are given. *)
Fixpoint uuids (xs : list exchange) : list string :=
  match xs with
  | [] => []
  | x :: xs' =>
      match ex_request x with
      | POST_users uuid _ (Bound _ _) => uuid :: uuids xs'
      | _ => uuids xs'
      end
  end.

(** The id a call is about. *)
Definition op_id (p : op) : string :=
  match p with
  | OpCreate user | OpUpdate user => ID user
  | OpDelete id => id
  end.

(** A call is rejected when it returns one of the two sentinels. *)
Definition rejected (e : option error) : Prop :=
  e = Some ErrUserExists ∨ e = Some ErrUserNotFound.

(** ** main *)

(** [getEnv] returns the value of an environment variable or a default
    value; [env] is the environment, [os.Getenv] giving the empty string
    for a variable that is not set. *)
Definition Getenv (env : gmap string string) (key : string) : string :=
  default "" (env !! key).

Definition getEnv (env : gmap string string) (key defaultValue : string) : string :=
  let value := Getenv env key in
  if negb (String.eqb value "") then value else defaultValue.

(** The shutdown function that [initOtel] returns: it calls every function
    of [shutdownFuncs] and keeps the error of the last that failed. Each
    function is given by the error it returns. *)
Definition shutdownAll (shutdownFuncs : list (option error)) : option error :=
  foldl (λ err shutdownErr,
           match shutdownErr with Some e => Some e | None => err end)
        None shutdownFuncs.

Definition post (uuid : string) (now : Time) (name email : string) : exchange :=
  mkExchange canonical Written (POST_users uuid now (Bound name email)).
Definition put (id : string) (now : Time) (name email : string) : exchange :=
  mkExchange canonical Written (PUT_user id now (Bound name email)).
Definition del (id : string) : exchange :=
  mkExchange canonical Written (DELETE_user id).

(** A [DELETE] of [id] that runs between the two store calls of a [PUT]. *)
Definition deleted_between (id : string) (s : JSONStore) (fs : FS) : JSONStore * FS :=
  (@UserHandler_Delete wireCodec canonical Written id s fs).1.1.

(** * Properties *)

Section Theory.
Context `{!JSONCodec}.

Implicit Types (o : order) (w : write_outcome) (s : JSONStore) (fs : FS).
Implicit Types (m : gmap string User) (user : User) (id : string).

(** ** Iteration *)

Lemma fair_elem_of o m k u : fair o → (k, u) ∈ o m ↔ m !! k = Some u.
Proof. intros Ho. rewrite (Ho m). apply elem_of_map_to_list. Qed.

Lemma fair_records o m : fair o → (o m).*2 ≡ₚ records m.
Proof. intros Ho. unfold records. by rewrite (Ho m). Qed.

Lemma elem_of_records m u : u ∈ records m ↔ ∃ k, m !! k = Some u.
Proof.
  unfold records. rewrite list_elem_of_fmap. split.
  - intros [[k v] [-> Hin]]. exists k. by apply elem_of_map_to_list.
  - intros [k Hk]. exists (k, u). split; [done|]. by apply elem_of_map_to_list.
Qed.

(** The email scan of [Create] does not depend on the order of the walk. *)
Lemma scan_create o m e :
  fair o →
  existsb (λ kv, bool_decide (Email kv.2 = e)) (o m) = true ↔ email_taken e m.
Proof.
  intros Ho. rewrite existsb_exists. split.
  - intros [[k u] [Hin Hb]].
    apply list_elem_of_In, (fair_elem_of o) in Hin; [|done].
    apply bool_decide_eq_true in Hb. by exists k, u.
  - intros (k & u & Hl & He). exists (k, u). split.
    + by apply list_elem_of_In, fair_elem_of.
    + by apply bool_decide_eq_true.
Qed.

(** Nor does the scan of [Update], which skips the entry under [id]. *)
Lemma scan_update o m id e :
  fair o →
  existsb (λ kv, bool_decide (Email kv.2 = e) && negb (bool_decide (kv.1 = id))) (o m) = true
  ↔ email_taken_by_other id e m.
Proof.
  intros Ho. rewrite existsb_exists. split.
  - intros [[k u] [Hin Hb]].
    apply list_elem_of_In, (fair_elem_of o) in Hin; [|done].
    apply andb_true_iff in Hb as [He Hk].
    apply bool_decide_eq_true in He. apply negb_true_iff, bool_decide_eq_false in Hk.
    by exists k, u.
  - intros (k & u & Hl & Hk & He). exists (k, u). split.
    + by apply list_elem_of_In, fair_elem_of.
    + apply andb_true_iff. split; [by apply bool_decide_eq_true|].
      by apply negb_true_iff, bool_decide_eq_false.
Qed.

(** ** The persist step *)

Lemma WriteFile_error w path data fs fs' e :
  WriteFile w path data fs = (fs', Some e) → ∃ msg, e = ErrOS msg.
Proof. destruct w as [|msg [f|]]; simpl; intros [= <- <-]; eauto. Qed.

(** [save] fails with the error of the codec or of the file system, never
    with a sentinel of the package. *)
Lemma save_error o w s fs fs' e :
  save o w s fs = (fs', Some e) → e = ErrJSON ∨ ∃ msg, e = ErrOS msg.
Proof.
  unfold save. destruct (MarshalIndent _) as [data|].
  - intros Hw. right. by eapply WriteFile_error.
  - intros [= <- <-]. by left.
Qed.

Lemma save_ok o w s fs fs' :
  save o w s fs = (fs', None) →
  ∃ data, MarshalIndent ((o (users s)).*2) = Some data
          ∧ fs' = mkFS (<[filePath s := Regular data]> (files fs)) (reads fs).
Proof.
  unfold save. destruct (MarshalIndent _) as [data|]; [|done].
  destruct w as [|msg [f|]]; simpl; intros [= <-]. eauto.
Qed.

(** ** What each operation returns *)

Lemma Create_taken o w user s fs :
  fair o → email_taken (Email user) (users s) →
  Create o w user s fs = (s, fs, Some ErrUserExists).
Proof.
  intros Ho Ht. unfold Create.
  by rewrite (proj2 (scan_create o _ _ Ho) Ht).
Qed.

Lemma Create_free o w user s fs :
  fair o → ¬ email_taken (Email user) (users s) →
  Create o w user s fs =
    let s' := mkStore (filePath s) (<[ID user := user]> (users s)) in
    (s', (save o w s' fs).1, (save o w s' fs).2).
Proof.
  intros Ho Hf. unfold Create.
  destruct (existsb _ _) eqn:Hs; [by apply scan_create in Hs|].
  simpl. by destruct (save _ _ _ _).
Qed.

Lemma Update_missing o w user s fs :
  users s !! ID user = None →
  Update o w user s fs = (s, fs, Some ErrUserNotFound).
Proof. intros Hn. unfold Update. by rewrite Hn. Qed.

Lemma Update_taken o w user s fs :
  fair o → is_Some (users s !! ID user) →
  email_taken_by_other (ID user) (Email user) (users s) →
  Update o w user s fs = (s, fs, Some ErrUserExists).
Proof.
  intros Ho [old Hold] Ht. unfold Update. rewrite Hold.
  by rewrite (proj2 (scan_update o _ _ _ Ho) Ht).
Qed.

Lemma Update_free o w user s fs :
  fair o → is_Some (users s !! ID user) →
  ¬ email_taken_by_other (ID user) (Email user) (users s) →
  Update o w user s fs =
    let s' := mkStore (filePath s) (<[ID user := user]> (users s)) in
    (s', (save o w s' fs).1, (save o w s' fs).2).
Proof.
  intros Ho [old Hold] Hf. unfold Update. rewrite Hold.
  destruct (existsb _ _) eqn:Hs; [by apply scan_update in Hs|].
  simpl. by destruct (save _ _ _ _).
Qed.

Lemma Delete_missing o w id s fs :
  users s !! id = None → Delete o w id s fs = (s, fs, Some ErrUserNotFound).
Proof. intros Hn. unfold Delete. by rewrite Hn. Qed.

Lemma Delete_present o w id s fs :
  is_Some (users s !! id) →
  Delete o w id s fs =
    let s' := mkStore (filePath s) (delete id (users s)) in
    (s', (save o w s' fs).1, (save o w s' fs).2).
Proof.
  intros [old Hold]. unfold Delete. rewrite Hold.
  simpl. by destruct (save _ _ _ _).
Qed.

Lemma fair_canonical : fair canonical.
Proof. by intros m. Qed.

Lemma email_taken_dec e m : Decision (email_taken e m).
Proof.
  destruct (existsb (λ kv, bool_decide (Email kv.2 = e)) (canonical m)) eqn:Hs.
  - left. by apply (scan_create canonical _ _ fair_canonical).
  - right. intros Ht. apply (scan_create canonical _ _ fair_canonical) in Ht. congruence.
Qed.

Lemma email_taken_by_other_dec id e m : Decision (email_taken_by_other id e m).
Proof.
  destruct (existsb (λ kv, bool_decide (Email kv.2 = e) && negb (bool_decide (kv.1 = id)))
              (canonical m)) eqn:Hs.
  - left. by apply (scan_update canonical _ _ _ fair_canonical).
  - right. intros Ht. apply (scan_update canonical _ _ _ fair_canonical) in Ht. congruence.
Qed.

(** ** Create *)

(** C4. [Create] fails with [ErrUserExists] exactly when some live record
    has the very email of the new record (equality of strings, so letter
    case counts). When none has, [Create] files the record under its id
    and, the persist step succeeding, returns no error. *)
Theorem Create_AlreadyExists_iff o w user s fs :
  fair o →
  ((Create o w user s fs).2 = Some ErrUserExists
     ↔ email_taken (Email user) (users s))
  ∧ (¬ email_taken (Email user) (users s) →
     let s' := mkStore (filePath s) (<[ID user := user]> (users s)) in
     (Create o w user s fs).1.1 = s'
     ∧ ((save o w s' fs).2 = None → (Create o w user s fs).2 = None)).
Proof.
  intros Ho. split; [split|].
  - intros He. destruct (email_taken_dec (Email user) (users s)) as [|Hf]; [done|].
    rewrite (Create_free o w user s fs Ho Hf) in He. simpl in He.
    destruct (save _ _ _ _) as [fs' [e|]] eqn:Hs; [|done].
    simpl in He. injection He as ->.
    by destruct (save_error _ _ _ _ _ _ Hs) as [|[? ?]].
  - intros Ht. by rewrite Create_taken.
  - intros Hf. by rewrite (Create_free o w user s fs Ho Hf).
Qed.

(** C10. [Create] never looks at the ids. Over a record filed under the id
    of the new one it files the new record, so the old one is gone, when
    no live record has the new email, and returns no error when the
    persist step succeeds; it fails with [ErrUserExists] when the new
    record has the email of the old one, the scan meeting the record that
    would be replaced. It never returns [ErrUserNotFound], and
    [ErrUserExists] only for a taken email. *)
Theorem Create_same_id o w r s fs :
  fair o →
  (∀ old, users s !! ID r = Some old →
     (¬ email_taken (Email r) (users s) →
        let s' := mkStore (filePath s) (<[ID r := r]> (users s)) in
        (Create o w r s fs).1.1 = s'
        ∧ GetByID (ID r) s' = (r, None)
        ∧ ((save o w s' fs).2 = None → (Create o w r s fs).2 = None))
     ∧ (Email r = Email old → Create o w r s fs = (s, fs, Some ErrUserExists)))
  ∧ (Create o w r s fs).2 ≠ Some ErrUserNotFound
  ∧ ((Create o w r s fs).2 = Some ErrUserExists → email_taken (Email r) (users s)).
Proof.
  intros Ho. split; [|split].
  - intros old Hold. split.
    + intros Hf. rewrite (Create_free o w r s fs Ho Hf). simpl.
      split; [done|]. split; [|done].
      unfold GetByID. simpl. by rewrite lookup_insert_eq.
    + intros He. apply Create_taken; [done|]. by exists (ID r), old.
  - destruct (email_taken_dec (Email r) (users s)) as [Ht|Hf].
    + by rewrite Create_taken.
    + rewrite (Create_free o w r s fs Ho Hf). simpl.
      destruct (save _ _ _ _) as [fs' [e|]] eqn:Hs; [|done].
      simpl. intros [= ->].
      by destruct (save_error _ _ _ _ _ _ Hs) as [|[? ?]].
  - intros He. destruct (email_taken_dec (Email r) (users s)) as [|Hf]; [done|].
    rewrite (Create_free o w r s fs Ho Hf) in He. simpl in He.
    destruct (save _ _ _ _) as [fs' [e|]] eqn:Hs; [|done].
    simpl in He. injection He as ->.
    by destruct (save_error _ _ _ _ _ _ Hs) as [|[? ?]].
Qed.

(** ** Update *)

Lemma unique_emails_no_other m id x :
  unique_emails m → m !! id = Some x → ¬ email_taken_by_other id (Email x) m.
Proof.
  intros Hu Hx (k & u & Hk & Hne & He). apply Hne.
  by apply (Hu k id u x).
Qed.

(** C5, amended. [Update] first fails with [ErrUserNotFound] when no record
    is filed under the id of the new one. When one is, it fails with
    [ErrUserExists] exactly when a live record under another id has the
    new email. In a store without duplicate emails, an update of a record
    to the email it has passes the check, files the new record and, the
    persist step succeeding, returns no error. *)
Theorem Update_AlreadyExists_iff o w user s fs :
  fair o →
  (users s !! ID user = None → (Update o w user s fs).2 = Some ErrUserNotFound)
  ∧ (is_Some (users s !! ID user) →
     ((Update o w user s fs).2 = Some ErrUserExists
        ↔ email_taken_by_other (ID user) (Email user) (users s)))
  ∧ (∀ x, users s !! ID user = Some x → Email x = Email user →
       unique_emails (users s) →
       let s' := mkStore (filePath s) (<[ID user := user]> (users s)) in
       (Update o w user s fs).1.1 = s'
       ∧ ((save o w s' fs).2 = None → (Update o w user s fs).2 = None)).
Proof.
  intros Ho. split; [|split].
  - intros Hn. by rewrite Update_missing.
  - intros Hin. split.
    + intros He.
      destruct (email_taken_by_other_dec (ID user) (Email user) (users s)) as [|Hf]; [done|].
      rewrite (Update_free o w user s fs Ho Hin Hf) in He. simpl in He.
      destruct (save _ _ _ _) as [fs' [e|]] eqn:Hs; [|done].
      simpl in He. injection He as ->.
      by destruct (save_error _ _ _ _ _ _ Hs) as [|[? ?]].
    + intros Ht. by rewrite Update_taken.
  - intros x Hx He Hu.
    assert (¬ email_taken_by_other (ID user) (Email user) (users s)) as Hf.
    { rewrite <- He. by apply unique_emails_no_other. }
    by rewrite (Update_free o w user s fs Ho (mk_is_Some _ _ Hx) Hf).
Qed.

Lemma Update_success o w r s fs s' fs' :
  Update o w r s fs = (s', fs', None) →
  is_Some (users s !! ID r) ∧ s' = mkStore (filePath s) (<[ID r := r]> (users s)).
Proof.
  unfold Update. destruct (users s !! ID r) as [old|] eqn:Hold; [|done].
  destruct (existsb _ _); [done|].
  destruct (save _ _ _ _). intros [= <- _ _]. eauto.
Qed.

Lemma GetByID_insert id user m path :
  GetByID id (mkStore path (<[id := user]> m)) = (user, None).
Proof. unfold GetByID. simpl. by rewrite lookup_insert_eq. Qed.

(** After a run of successful updates of one id, [GetByID] returns the
    record of the last of them. *)
Lemma exec_updates_last cs id s fs s' fs' es :
  cs ≠ [] →
  Forall (λ c, ∃ r, call_op c = OpUpdate r ∧ ID r = id) cs →
  exec cs s fs = (s', fs', es) →
  Forall (λ e, e = None) es →
  ∃ c r, last cs = Some c ∧ call_op c = OpUpdate r ∧ GetByID id s' = (r, None).
Proof.
  revert s fs es. induction cs as [|c cs IH]; [done|].
  intros s fs es _ Hall. apply Forall_cons in Hall as [(r & Hop & Hid) Hall].
  simpl. destruct (step c s fs) as [[s1 fs1] e] eqn:Hstep.
  destruct (exec cs s1 fs1) as [[s2 fs2] es'] eqn:Hexec.
  intros [= <- <- <-] Hes. apply Forall_cons in Hes as [-> Hes].
  destruct cs as [|c' cs'].
  - simpl in Hexec. injection Hexec as <- <- <-.
    exists c, r. split; [done|]. split; [done|].
    unfold step in Hstep. rewrite Hop in Hstep.
    apply Update_success in Hstep as [_ ->]. subst id. apply GetByID_insert.
  - destruct (IH s1 fs1 es') as (c0 & r0 & Hl & Hop0 & Hg); [done..|].
    exists c0, r0. by rewrite last_cons, Hl.
Qed.

(** C6. A successful [Update] of [r] leaves exactly [r] under its id: name,
    email and both timestamps are the supplied ones, [CreatedAt] is not
    taken from the record that was there, and [GetByID] returns [r]. After
    any number of successful updates of one id that all carry the
    creation time [t], [GetByID] returns a record created at [t]. *)
Theorem Update_stores_verbatim o w r s fs s' fs' :
  Update o w r s fs = (s', fs', None) →
  is_Some (users s !! ID r)
  ∧ users s' = <[ID r := r]> (users s)
  ∧ GetByID (ID r) s' = (r, None)
  ∧ (∀ cs t s2 fs2 es,
       cs ≠ [] →
       Forall (λ c, ∃ r', call_op c = OpUpdate r' ∧ ID r' = ID r ∧ CreatedAt r' = t) cs →
       exec cs s' fs' = (s2, fs2, es) →
       Forall (λ e, e = None) es →
       ∃ u, GetByID (ID r) s2 = (u, None) ∧ CreatedAt u = t).
Proof.
  intros Hu. apply Update_success in Hu as [Hin ->]. simpl.
  split; [done|]. split; [done|]. split; [apply GetByID_insert|].
  intros cs t s2 fs2 es Hne Hall Hexec Hes.
  assert (Forall (λ c, ∃ r', call_op c = OpUpdate r' ∧ ID r' = ID r) cs) as Hall'.
  { eapply Forall_impl; [exact Hall|]. intros c (r' & ? & ? & ?). eauto. }
  destruct (exec_updates_last cs (ID r) _ _ _ _ _ Hne Hall' Hexec Hes)
    as (c & u & Hl & Hop & Hg).
  exists u. split; [done|].
  apply last_Some_elem_of in Hl.
  rewrite Forall_forall in Hall. destruct (Hall c Hl) as (r' & Hop' & _ & Ht).
  congruence.
Qed.

(** ** GetByID *)

(** C7. [GetByID] right after a successful [Create] returns the record that
    was created; right after a successful [Delete] of the id it fails with
    [ErrUserNotFound]; and it fails with [ErrUserNotFound] exactly when no
    live record is filed under the id. *)
Theorem GetByID_after o w s fs :
  (∀ user s' fs', Create o w user s fs = (s', fs', None) →
     GetByID (ID user) s' = (user, None))
  ∧ (∀ id s' fs', Delete o w id s fs = (s', fs', None) →
       GetByID id s' = (zeroUser, Some ErrUserNotFound))
  ∧ (∀ id, (GetByID id s).2 = Some ErrUserNotFound ↔ users s !! id = None).
Proof.
  split; [|split].
  - intros user s' fs'. unfold Create. destruct (existsb _ _); [done|].
    destruct (save _ _ _ _). intros [= <- _ _]. apply GetByID_insert.
  - intros id s' fs'. unfold Delete. destruct (users s !! id); [|done].
    destruct (save _ _ _ _). intros [= <- _ _].
    unfold GetByID. simpl. by rewrite lookup_delete_eq.
  - intros id. unfold GetByID. by destruct (users s !! id).
Qed.

(** ** Failure of the persist step *)

(** C1, amended. When the persist step fails, the operation returns the
    error of that step, which is none of the package's sentinels, and the
    index keeps the change: the record of a [Create] or [Update] is filed
    and [GetByID] returns it, the record of a [Delete] is gone. Nothing is
    rolled back. *)
Theorem persist_failure_keeps_mutation o w s fs fs' e :
  fair o →
  (∀ user, ¬ email_taken (Email user) (users s) →
     let s' := mkStore (filePath s) (<[ID user := user]> (users s)) in
     save o w s' fs = (fs', Some e) →
     Create o w user s fs = (s', fs', Some e)
     ∧ (e = ErrJSON ∨ ∃ msg, e = ErrOS msg)
     ∧ GetByID (ID user) s' = (user, None))
  ∧ (∀ user, is_Some (users s !! ID user) →
       ¬ email_taken_by_other (ID user) (Email user) (users s) →
       let s' := mkStore (filePath s) (<[ID user := user]> (users s)) in
       save o w s' fs = (fs', Some e) →
       Update o w user s fs = (s', fs', Some e)
       ∧ (e = ErrJSON ∨ ∃ msg, e = ErrOS msg)
       ∧ GetByID (ID user) s' = (user, None))
  ∧ (∀ id, is_Some (users s !! id) →
       let s' := mkStore (filePath s) (delete id (users s)) in
       save o w s' fs = (fs', Some e) →
       Delete o w id s fs = (s', fs', Some e)
       ∧ (e = ErrJSON ∨ ∃ msg, e = ErrOS msg)
       ∧ GetByID id s' = (zeroUser, Some ErrUserNotFound)).
Proof.
  intros Ho. split; [|split].
  - intros user Hf s' Hs. split; [|split].
    + rewrite (Create_free o w user s fs Ho Hf). simpl. fold s'. by rewrite Hs.
    + by eapply save_error.
    + apply GetByID_insert.
  - intros user Hin Hf s' Hs. split; [|split].
    + rewrite (Update_free o w user s fs Ho Hin Hf). simpl. fold s'. by rewrite Hs.
    + by eapply save_error.
    + apply GetByID_insert.
  - intros id Hin s' Hs. split; [|split].
    + rewrite (Delete_present o w id s fs Hin). simpl. fold s'. by rewrite Hs.
    + by eapply save_error.
    + unfold GetByID. simpl. by rewrite lookup_delete_eq.
Qed.

(** ** Uniqueness of emails *)

Lemma unique_emails_insert m id user :
  unique_emails m → ¬ email_taken_by_other id (Email user) m →
  unique_emails (<[id := user]> m).
Proof.
  intros Hu Hf i j ui uj Hi Hj He.
  destruct (decide (i = id)) as [->|Hi'], (decide (j = id)) as [->|Hj']; [done|..].
  - rewrite lookup_insert_eq in Hi. rewrite lookup_insert_ne in Hj by done.
    injection Hi as <-. destruct Hf. by exists j, uj.
  - rewrite lookup_insert_eq in Hj. rewrite lookup_insert_ne in Hi by done.
    injection Hj as <-. destruct Hf. by exists i, ui.
  - rewrite lookup_insert_ne in Hi, Hj by done. by apply (Hu i j ui uj).
Qed.

Lemma unique_emails_delete m id : unique_emails m → unique_emails (delete id m).
Proof.
  intros Hu i j ui uj Hi Hj. apply lookup_delete_Some in Hi as [_ Hi].
  apply lookup_delete_Some in Hj as [_ Hj]. by apply (Hu i j ui uj).
Qed.

Lemma email_taken_by_other_taken id e m : email_taken_by_other id e m → email_taken e m.
Proof. intros (k & u & ? & _ & ?). by exists k, u. Qed.

Lemma step_unique_emails c s fs :
  fair (call_order c) → unique_emails (users s) →
  unique_emails (users (step c s fs).1.1).
Proof.
  intros Ho Hu. unfold step. destruct (call_op c) as [user|user|id].
  - destruct (email_taken_dec (Email user) (users s)) as [Ht|Hf].
    + by rewrite Create_taken.
    + rewrite (Create_free _ _ user s fs Ho Hf). simpl.
      apply unique_emails_insert; [done|].
      intros Ht. by apply Hf, (email_taken_by_other_taken (ID user)).
  - destruct (users s !! ID user) as [old|] eqn:Hold.
    + destruct (email_taken_by_other_dec (ID user) (Email user) (users s)) as [Ht|Hf].
      * by rewrite Update_taken.
      * rewrite (Update_free _ _ user s fs Ho (mk_is_Some _ _ Hold) Hf). simpl.
        by apply unique_emails_insert.
    + by rewrite Update_missing.
  - destruct (users s !! id) as [old|] eqn:Hold.
    + rewrite (Delete_present _ _ id s fs (mk_is_Some _ _ Hold)). simpl.
      by apply unique_emails_delete.
    + by rewrite Delete_missing.
Qed.

Lemma exec_cons c cs s fs :
  exec (c :: cs) s fs =
    ((exec cs (step c s fs).1.1 (step c s fs).1.2).1.1,
     (exec cs (step c s fs).1.1 (step c s fs).1.2).1.2,
     (step c s fs).2 :: (exec cs (step c s fs).1.1 (step c s fs).1.2).2).
Proof.
  simpl. destruct (step c s fs) as [[s1 fs1] e]. simpl.
  by destruct (exec cs s1 fs1) as [[s2 fs2] es].
Qed.

(** C2. From an index without duplicate emails, after every prefix of every
    sequence of calls of [Create] and [Update] (and of [Delete]), no two
    live records share an email. *)
Theorem emails_stay_unique cs s fs :
  unique_emails (users s) →
  Forall (λ c, fair (call_order c)) cs →
  ∀ n, unique_emails (users (exec (take n cs) s fs).1.1).
Proof.
  intros Hu Hall n. revert s fs cs Hu Hall.
  induction n as [|n IH]; intros s fs cs Hu Hall.
  - by rewrite take_0.
  - destruct cs as [|c cs]; [done|].
    apply Forall_cons in Hall as [Ho Hall].
    rewrite firstn_cons, exec_cons. simpl.
    apply IH; [|done]. by apply step_unique_emails.
Qed.

(** ** Start-up *)

Lemma fair_empty o : fair o → o ∅ = [].
Proof.
  intros Ho. apply Permutation_nil_r. by rewrite (Ho ∅), map_to_list_empty.
Qed.

(** With its directory made, [NewJSONStore] calls [os.ReadFile] once and
    leaves every file as it is. *)
Lemma NewJSONStore_reads path fs :
  (NewJSONStore None path fs).2 = mkFS (files fs) (S (reads fs)).
Proof.
  unfold NewJSONStore, load, ReadFile. simpl.
  destruct (files fs !! path) as [[data|msg]|]; simpl; [|done..].
  destruct (decide _); [done|]. by destruct (Unmarshal data).
Qed.

(** C8, amended. [NewJSONStore] first makes the directory; when that fails
    it fails with that error and reads nothing. With the directory made it
    reads the snapshot file once and writes nothing. A path with no file
    gives a store with an empty index, and so does a file of zero bytes. A
    file of at least one byte that the codec accepts gives the store whose
    index files each record of the file under its id, in the order of the
    file; one that the codec rejects gives an error and no store. [GetAll]
    on a store started from no file or an empty one returns the empty list
    and no error. *)
Theorem NewJSONStore_load path fs :
  (∀ msg, NewJSONStore (Some msg) path fs = (Err (ErrOS msg), fs))
  ∧ (NewJSONStore None path fs).2 = mkFS (files fs) (S (reads fs))
  ∧ (files fs !! path = None →
     (NewJSONStore None path fs).1 = Ok (mkStore path ∅))
  ∧ (files fs !! path = Some (Regular []) →
     (NewJSONStore None path fs).1 = Ok (mkStore path ∅))
  ∧ (∀ data us, files fs !! path = Some (Regular data) → data ≠ [] →
       Unmarshal data = Some us →
       (NewJSONStore None path fs).1
       = Ok (mkStore path (foldl (λ m user, <[ID user := user]> m) ∅ us)))
  ∧ (∀ data mk, files fs !! path = Some (Regular data) → data ≠ [] →
       Unmarshal data = None →
       ∃ e, (NewJSONStore mk path fs).1 = Err e)
  ∧ (∀ o, fair o →
       files fs !! path = None ∨ files fs !! path = Some (Regular []) →
       ∃ s, (NewJSONStore None path fs).1 = Ok s ∧ GetAll o s = ([], None)).
Proof.
  assert (∀ o, fair o → GetAll o (mkStore path ∅) = ([], None)) as Hget.
  { intros o Ho. unfold GetAll. simpl. by rewrite fair_empty. }
  split; [done|].
  unfold NewJSONStore, load, ReadFile. simpl.
  split; [|split; [|split; [|split; [|split]]]].
  - apply NewJSONStore_reads.
  - by intros ->.
  - by intros ->.
  - intros data us Hf Hne Hu. rewrite Hf. simpl.
    rewrite decide_False by (by destruct data). by rewrite Hu.
  - intros data mk Hf Hne Hu. destruct mk as [msg|]; [by eexists|].
    rewrite Hf. simpl. destruct (decide _) as [Hl|_].
    + by destruct data.
    + rewrite Hu. by eexists.
  - intros o Ho [-> | ->]; simpl; eauto.
Qed.

(** ** The index built by [load] *)

Lemma index_lookup us acc k u :
  NoDup (ID <$> us) →
  foldl (λ m user, <[ID user := user]> m) acc us !! k = Some u
  ↔ (u ∈ us ∧ ID u = k) ∨ ((k ∉ ID <$> us) ∧ acc !! k = Some u).
Proof.
  revert acc. induction us as [|a us IH]; intros acc Hnd; simpl.
  - split; [|intros [[Hin _]|[_ ?]]; [by apply elem_of_nil in Hin|done]].
    intros Hk. right. split; [apply not_elem_of_nil|done].
  - apply NoDup_cons in Hnd as [Ha Hnd]. rewrite IH by done.
    rewrite elem_of_cons, not_elem_of_cons.
    destruct (decide (k = ID a)) as [->|Hk].
    + rewrite lookup_insert_eq. split.
      * intros [[Hin He]|[_ [= <-]]]; [|by left; split; [left|]].
        destruct Ha. rewrite <- He. apply list_elem_of_fmap. by exists u.
      * intros [[[->|Hin] He]|[[? _] _]]; [by right| |done].
        destruct Ha. rewrite <- He. apply list_elem_of_fmap. by exists u.
    + rewrite lookup_insert_ne by done. split.
      * intros [[Hin He]|[Hn Hacc]]; [left; split; [by right|done]|by right].
      * intros [[[->|Hin] He]|[[_ Hn] Hacc]]; [by subst k|by left|by right].
Qed.

Lemma index_keyed us acc :
  keyed acc → keyed (foldl (λ m user, <[ID user := user]> m) acc us).
Proof.
  revert acc. induction us as [|a us IH]; intros acc Hk; [done|].
  simpl. apply IH. intros k u. destruct (decide (k = ID a)) as [->|Hne].
  - rewrite lookup_insert_eq. by intros [= <-].
  - rewrite lookup_insert_ne by done. apply Hk.
Qed.


Lemma keyed_ids o m : fair o → keyed m → ID <$> (o m).*2 = (o m).*1.
Proof.
  intros Ho Hk. rewrite <- list_fmap_compose. apply list_fmap_ext.
  intros i [k u] Hi. simpl. apply Hk, (fair_elem_of o); [done|].
  by eapply list_elem_of_lookup_2.
Qed.

(** Listing a well-filed index in any order and indexing the list again
    gives the index back. *)
Lemma index_of_listing o m :
  fair o → keyed m →
  foldl (λ m user, <[ID user := user]> m) ∅ (o m).*2 = m.
Proof.
  intros Ho Hk. apply map_eq. intros k. apply option_eq. intros u.
  rewrite index_lookup.
  - split.
    + intros [[Hin He]|[_ ?]]; [|done].
      apply list_elem_of_fmap in Hin as [[k' u'] [-> Hin]]. simpl in *.
      apply (fair_elem_of o) in Hin; [|done]. by rewrite <- He, (Hk k' u' Hin).
    + intros Hm. left. split; [|by apply Hk].
      apply list_elem_of_fmap. exists (k, u). split; [done|].
      by apply fair_elem_of.
  - rewrite keyed_ids by done. rewrite (Ho m). apply NoDup_fst_map_to_list.
Qed.

(** ** The index and the snapshot *)

Lemma step_success c s fs s' fs' :
  step c s fs = (s', fs', None) →
  filePath s' = filePath s ∧ save (call_order c) (call_write c) s' fs = (fs', None).
Proof.
  unfold step. destruct (call_op c) as [user|user|id].
  - unfold Create. destruct (existsb _ _); [done|].
    destruct (save _ _ _ _) as [fs1 e1] eqn:Hs. by intros [= <- <- ->].
  - unfold Update. destruct (users s !! ID user); [|done].
    destruct (existsb _ _); [done|].
    destruct (save _ _ _ _) as [fs1 e1] eqn:Hs. by intros [= <- <- ->].
  - unfold Delete. destruct (users s !! id); [|done].
    destruct (save _ _ _ _) as [fs1 e1] eqn:Hs. by intros [= <- <- ->].
Qed.

Lemma step_synced c s fs s' fs' :
  fair (call_order c) → step c s fs = (s', fs', None) → synced s' fs'.
Proof.
  intros Ho Hstep. apply step_success in Hstep as [_ Hs].
  apply save_ok in Hs as (data & Hm & ->).
  exists (call_order c), data. simpl. by rewrite lookup_insert_eq.
Qed.

Lemma synced_snapshot s fs :
  synced s fs → (∀ o, fair o → roundtrips ((o (users s)).*2)) →
  ∃ o, fair o ∧ snapshot_records (filePath s) fs = (o (users s)).*2.
Proof.
  intros (o & data & Ho & Hm & Hf) Hrt. exists o. split; [done|].
  destruct (Hrt o Ho data Hm) as [Hlen Hun].
  unfold snapshot_records. rewrite Hf. by rewrite decide_False, Hun.
Qed.

Lemma load_fresh path fs s' fs' :
  load (mkStore path ∅) fs = (s', fs', None) →
  filePath s' = path ∧ files fs' = files fs
  ∧ users s' = foldl (λ m user, <[ID user := user]> m) ∅ (snapshot_records path fs).
Proof.
  unfold load, ReadFile, snapshot_records. simpl.
  destruct (files fs !! path) as [[data|msg]|]; [|done..].
  destruct (decide _); [by intros [= <- <-]|].
  destruct (Unmarshal data); [|done]. by intros [= <- <-].
Qed.


(** ** Reloading *)

Lemma step_filePath c s fs : filePath (step c s fs).1.1 = filePath s.
Proof.
  unfold step. destruct (call_op c) as [user|user|id].
  - unfold Create. destruct (existsb _ _); [done|]. by destruct (save _ _ _ _).
  - unfold Update. destruct (users s !! ID user); [|done].
    destruct (existsb _ _); [done|]. by destruct (save _ _ _ _).
  - unfold Delete. destruct (users s !! id); [|done]. by destruct (save _ _ _ _).
Qed.

Lemma keyed_insert m user : keyed m → keyed (<[ID user := user]> m).
Proof.
  intros Hk k u. destruct (decide (k = ID user)) as [->|Hne].
  - rewrite lookup_insert_eq. by intros [= <-].
  - rewrite lookup_insert_ne by done. apply Hk.
Qed.

Lemma step_keyed c s fs : keyed (users s) → keyed (users (step c s fs).1.1).
Proof.
  intros Hk. unfold step. destruct (call_op c) as [user|user|id].
  - unfold Create. destruct (existsb _ _); [done|].
    destruct (save _ _ _ _). by apply keyed_insert.
  - unfold Update. destruct (users s !! ID user); [|done].
    destruct (existsb _ _); [done|].
    destruct (save _ _ _ _). by apply keyed_insert.
  - unfold Delete. destruct (users s !! id) as [old|]; [|done].
    destruct (save _ _ _ _). simpl. intros k u Hl.
    apply lookup_delete_Some in Hl as [_ Hl]. by apply Hk.
Qed.

Lemma exec_invariants cs s fs :
  keyed (users s) →
  keyed (users (exec cs s fs).1.1) ∧ filePath (exec cs s fs).1.1 = filePath s.
Proof.
  revert s fs. induction cs as [|c cs IH]; intros s fs Hk; [done|].
  rewrite exec_cons. simpl.
  destruct (IH (step c s fs).1.1 (step c s fs).1.2) as [Hk' Hp].
  - by apply step_keyed.
  - split; [done|]. by rewrite Hp, step_filePath.
Qed.


Lemma NewJSONStore_Ok mk path fs s fs' :
  NewJSONStore mk path fs = (Ok s, fs') →
  mk = None ∧ filePath s = path ∧ keyed (users s)
  ∧ ∀ n, (NewJSONStore None path (mkFS (files fs) n)).1 = Ok s.
Proof.
  unfold NewJSONStore, load, ReadFile. destruct mk as [msg|]; [done|]. simpl.
  destruct (files fs !! path) as [[data|msg]|]; simpl.
  - destruct (decide _).
    + intros [= <- <-]. done.
    + destruct (Unmarshal data) as [us|]; [|done]. intros [= <- <-].
      split; [done|]. split; [done|]. split; [|done]. by apply index_keyed.
  - done.
  - intros [= <- <-]. done.
Qed.

Lemma synced_reload s fs :
  keyed (users s) → synced s fs →
  (∀ o, fair o → roundtrips ((o (users s)).*2)) →
  (NewJSONStore None (filePath s) fs).1 = Ok (mkStore (filePath s) (users s)).
Proof.
  intros Hk (o & data & Ho & Hm & Hf) Hrt.
  destruct (Hrt o Ho data Hm) as [Hlen Hun].
  unfold NewJSONStore, load, ReadFile. simpl. rewrite Hf. simpl.
  rewrite decide_False, Hun by done. simpl.
  by rewrite index_of_listing.
Qed.


End Theory.

(** * Further properties of the store *)

Section Storage.
Context `{!JSONCodec}.

Implicit Types (o : order) (w : write_outcome) (s : JSONStore) (fs : FS).
Implicit Types (m : gmap string User) (user : User) (id : string).

Lemma GetByID_Some id s u : GetByID id s = (u, None) ↔ users s !! id = Some u.
Proof.
  unfold GetByID. destruct (users s !! id) as [u'|]; [|done].
  split; intros [= ->]; done.
Qed.

(** X1. [GetAll] never fails and lists the records of the index, each live
    record once: as many as the index has entries, and exactly those that
    [GetByID] returns for some id. *)
Theorem GetAll_lists_index o s :
  fair o →
  (GetAll o s).2 = None
  ∧ (GetAll o s).1 ≡ₚ records (users s)
  ∧ length (GetAll o s).1 = size (users s)
  ∧ ∀ u, u ∈ (GetAll o s).1 ↔ ∃ id, GetByID id s = (u, None).
Proof.
  intros Ho. unfold GetAll. simpl. split; [done|].
  split; [by apply fair_records|]. split.
  - rewrite (fair_records o _ Ho). unfold records.
    by rewrite length_fmap, length_map_to_list.
  - intros u. rewrite (fair_records o _ Ho), elem_of_records.
    by setoid_rewrite GetByID_Some.
Qed.

(** X2. A call that is rejected with [ErrUserExists] or [ErrUserNotFound]
    changes neither the index nor any file. *)
Theorem rejected_call_changes_nothing c s fs :
  rejected (step c s fs).2 → (step c s fs).1 = (s, fs).
Proof.
  unfold step. destruct (call_op c) as [user|user|id].
  - unfold Create. destruct (existsb _ _); [done|].
    destruct (save _ _ _ _) as [fs' [e|]] eqn:Hs; simpl.
    + intros [[= ->]|[= ->]]; by destruct (save_error _ _ _ _ _ _ Hs) as [|[? ?]].
    + by intros [|].
  - unfold Update. destruct (users s !! ID user) as [old|]; [|done].
    destruct (existsb _ _); [done|].
    destruct (save _ _ _ _) as [fs' [e|]] eqn:Hs; simpl.
    + intros [[= ->]|[= ->]]; by destruct (save_error _ _ _ _ _ _ Hs) as [|[? ?]].
    + by intros [|].
  - unfold Delete. destruct (users s !! id) as [old|]; [|done].
    destruct (save _ _ _ _) as [fs' [e|]] eqn:Hs; simpl.
    + intros [[= ->]|[= ->]]; by destruct (save_error _ _ _ _ _ _ Hs) as [|[? ?]].
    + by intros [|].
Qed.

Lemma save_frame o w s fs :
  reads (save o w s fs).1 = reads fs
  ∧ ∀ p, p ≠ filePath s → files (save o w s fs).1 !! p = files fs !! p.
Proof.
  unfold save. destruct (MarshalIndent _) as [data|]; [|done].
  destruct w as [|msg [f|]]; simpl; (split; [done|]); intros p Hp.
  - by rewrite lookup_insert_ne.
  - by rewrite lookup_insert_ne.
  - by rewrite lookup_delete_ne.
Qed.

(** X3. A call of [Create], [Update] or [Delete], whatever it returns, keeps
    the path of the store, reads no file, leaves every record filed under
    another id than its own as it is, and leaves every file but the
    snapshot as it is. *)
Theorem step_frame c s fs :
  filePath (step c s fs).1.1 = filePath s
  ∧ reads (step c s fs).1.2 = reads fs
  ∧ (∀ k, k ≠ op_id (call_op c) → users (step c s fs).1.1 !! k = users s !! k)
  ∧ (∀ p, p ≠ filePath s → files (step c s fs).1.2 !! p = files fs !! p).
Proof.
  split; [apply step_filePath|].
  unfold step. destruct (call_op c) as [user|user|id]; simpl.
  - unfold Create. destruct (existsb _ _); [done|].
    pose proof (save_frame (call_order c) (call_write c)
                  (mkStore (filePath s) (<[ID user := user]> (users s))) fs) as [Hr Hf].
    destruct (save _ _ _ _) as [fs' e]. simpl in *.
    split; [done|]. split; [|done]. intros k Hk. by rewrite lookup_insert_ne.
  - unfold Update. destruct (users s !! ID user) as [old|]; [|done].
    destruct (existsb _ _); [done|].
    pose proof (save_frame (call_order c) (call_write c)
                  (mkStore (filePath s) (<[ID user := user]> (users s))) fs) as [Hr Hf].
    destruct (save _ _ _ _) as [fs' e]. simpl in *.
    split; [done|]. split; [|done]. intros k Hk. by rewrite lookup_insert_ne.
  - unfold Delete. destruct (users s !! id) as [old|]; [|done].
    pose proof (save_frame (call_order c) (call_write c)
                  (mkStore (filePath s) (delete id (users s))) fs) as [Hr Hf].
    destruct (save _ _ _ _) as [fs' e]. simpl in *.
    split; [done|]. split; [|done]. intros k Hk. by rewrite lookup_delete_ne.
Qed.

(** X4. [Delete] fails with [ErrUserNotFound] exactly when no record is
    filed under the id, and then changes nothing. Otherwise it removes that
    record from the index, which has one entry less, and returns what the
    persist step returns. *)
Theorem Delete_NotFound_iff o w id s fs :
  ((Delete o w id s fs).2 = Some ErrUserNotFound ↔ users s !! id = None)
  ∧ (users s !! id = None → Delete o w id s fs = (s, fs, Some ErrUserNotFound))
  ∧ (is_Some (users s !! id) →
     let s' := mkStore (filePath s) (delete id (users s)) in
     (Delete o w id s fs).1.1 = s'
     ∧ S (size (users s')) = size (users s)
     ∧ (Delete o w id s fs).2 = (save o w s' fs).2).
Proof.
  split; [split|split].
  - intros He. destruct (users s !! id) as [old|] eqn:Hold; [|done].
    rewrite (Delete_present o w id s fs (mk_is_Some _ _ Hold)) in He. simpl in He.
    destruct (save _ _ _ _) as [fs' [e|]] eqn:Hs; [|done].
    simpl in He. injection He as ->.
    by destruct (save_error _ _ _ _ _ _ Hs) as [|[? ?]].
  - intros Hn. by rewrite Delete_missing.
  - apply Delete_missing.
  - intros Hin. rewrite (Delete_present o w id s fs Hin). simpl.
    split; [done|]. split; [|done].
    rewrite map_size_delete_Some by done.
    destruct Hin as [old Hold].
    assert (size (users s) ≠ 0); [|lia].
    intros Hz. apply map_size_empty_iff in Hz. by rewrite Hz, lookup_empty in Hold.
Qed.

(** X5. [NewJSONStore] gives a store exactly when the directory is made and
    the path has no file, a file of zero bytes or a file that the codec
    accepts. When the directory is not made it fails with that error and
    reads nothing; a file that cannot be read fails it with the error of
    the read, a file that the codec rejects with the error of the codec. *)
Theorem NewJSONStore_succeeds_iff mk path fs :
  ((∃ s, (NewJSONStore mk path fs).1 = Ok s)
     ↔ mk = None
       ∧ (files fs !! path = None
          ∨ ∃ data, files fs !! path = Some (Regular data)
                    ∧ (data = [] ∨ is_Some (Unmarshal data))))
  ∧ (∀ msg, mk = Some msg → NewJSONStore mk path fs = (Err (ErrOS msg), fs))
  ∧ (∀ msg, mk = None → files fs !! path = Some (Unreadable msg) →
       (NewJSONStore mk path fs).1 = Err (ErrOS msg))
  ∧ (∀ data, mk = None → files fs !! path = Some (Regular data) → data ≠ [] →
       Unmarshal data = None → (NewJSONStore mk path fs).1 = Err ErrJSON).
Proof.
  unfold NewJSONStore, load, ReadFile. simpl.
  split; [|split; [|split]].
  - destruct mk as [msg|]; [split; [by intros [? ?]|by intros [? _]]|].
    destruct (files fs !! path) as [[data|msg]|]; simpl.
    + destruct (decide (length data = 0)) as [Hl|Hl]; simpl.
      * split; [|by eauto]. intros _. split; [done|]. right. exists data.
        split; [done|]. left. by apply nil_length_inv.
      * destruct (Unmarshal data) as [us|] eqn:Hu; simpl.
        -- split; [|by eauto]. intros _. split; [done|]. right. exists data.
           split; [done|]. right. by rewrite Hu.
        -- split; [by intros [? ?]|].
           intros [_ [?|(d & [= <-] & [->|[? Hu']])]]; [done|done|].
           by rewrite Hu in Hu'.
    + split; [by intros [? ?]|]. intros [_ [?|(d & ? & _)]]; done.
    + split; [|by eauto]. intros _. split; [done|]. by left.
  - by intros msg ->.
  - by intros msg -> ->.
  - intros data -> -> Hne Hu. simpl.
    rewrite decide_False by (by destruct data). by rewrite Hu.
Qed.

Lemma index_last_wins us acc k :
  foldl (λ m user, <[ID user := user]> m) acc us !! k
  = match last (filter (λ u, ID u = k) us) with
    | Some u => Some u
    | None => acc !! k
    end.
Proof.
  revert acc. induction us as [|a us IH]; intros acc; [done|].
  simpl. rewrite IH. rewrite filter_cons.
  destruct (decide (ID a = k)) as [<-|Hne].
  - rewrite last_cons, lookup_insert_eq. by destruct (last _).
  - by rewrite lookup_insert_ne.
Qed.

(** X6. After the load of a snapshot into a fresh store, the record under an
    id is the last record of the snapshot with that id; ids that the
    snapshot does not have are not in the index. *)
Theorem load_last_wins path fs s' fs' k :
  load (mkStore path ∅) fs = (s', fs', None) →
  users s' !! k = last (filter (λ u, ID u = k) (snapshot_records path fs)).
Proof.
  intros Hl. apply load_fresh in Hl as (_ & _ & ->).
  rewrite index_last_wins, lookup_empty. by destruct (last _).
Qed.

(** X7. In a store made by [NewJSONStore], after any calls of [Create],
    [Update] and [Delete], failed ones too, the path is the one the store
    was made with, the record that [GetByID] returns for an id has that id,
    and no two live records have the same id. *)
Theorem ids_match_keys mk path fs s1 fs1 cs :
  NewJSONStore mk path fs = (Ok s1, fs1) →
  filePath (exec cs s1 fs1).1.1 = path
  ∧ (∀ id u, GetByID id (exec cs s1 fs1).1.1 = (u, None) → ID u = id)
  ∧ NoDup (ID <$> records (users (exec cs s1 fs1).1.1)).
Proof.
  intros Hnew. apply NewJSONStore_Ok in Hnew as (_ & Hp & Hk & _).
  destruct (exec_invariants cs s1 fs1 Hk) as [Hk2 Hp2].
  split; [by rewrite Hp2|]. split.
  - intros id u Hg. apply GetByID_Some in Hg. by apply Hk2.
  - unfold records. change (map_to_list ?m) with (canonical m).
    rewrite (keyed_ids canonical _ fair_canonical Hk2).
    apply NoDup_fst_map_to_list.
Qed.

Lemma exec_last_synced cs s fs s' fs' es :
  Forall (λ c, fair (call_order c)) cs →
  exec cs s fs = (s', fs', es) → last es = Some None →
  synced s' fs'.
Proof.
  revert s fs es. induction cs as [|c cs IH]; intros s fs es Hall.
  - by intros [= <- <- <-].
  - apply Forall_cons in Hall as [Ho Hall].
    simpl. destruct (step c s fs) as [[s1 fs1] e] eqn:Hstep.
    destruct (exec cs s1 fs1) as [[s2 fs2] es'] eqn:Hexec.
    intros [= <- <- <-] Hlast. rewrite last_cons in Hlast.
    destruct (last es') as [e'|] eqn:Hl.
    + injection Hlast as ->. by apply (IH s1 fs1 es').
    + injection Hlast as ->. destruct cs as [|c' cs'].
      * simpl in Hexec. injection Hexec as <- <- <-. by eapply step_synced.
      * simpl in Hexec. destruct (step c' s1 fs1) as [[? ?] ?].
        destruct (exec cs' _ _) as [[? ?] ?]. injection Hexec as <- <- <-.
        rewrite last_cons in Hl. by destruct (last _).
Qed.

(** X8. Whatever happened to the calls before it, once the last call of a
    run succeeds the snapshot is that of the index: a store made anew from
    the path has the index of the running store (the directory in place,
    the codec giving back the listings of that index). *)
Theorem last_success_resyncs mk path fs s1 fs1 cs s2 fs2 es :
  NewJSONStore mk path fs = (Ok s1, fs1) →
  Forall (λ c, fair (call_order c)) cs →
  exec cs s1 fs1 = (s2, fs2, es) →
  last es = Some None →
  (∀ o, fair o → roundtrips ((o (users s2)).*2)) →
  (NewJSONStore None path fs2).1 = Ok (mkStore path (users s2)).
Proof.
  intros Hnew Hall Hexec Hlast Hrt.
  apply NewJSONStore_Ok in Hnew as (_ & Hp & Hk & _).
  destruct (exec_invariants cs s1 fs1 Hk) as [Hk2 Hp2].
  rewrite Hexec in Hk2, Hp2. simpl in Hk2, Hp2.
  rewrite <- Hp, <- Hp2. apply synced_reload; [done| |done].
  by apply (exec_last_synced cs s1 fs1 s2 fs2 es).
Qed.

(** X9. The snapshot that a successful call writes for a store whose records
    are filed under their ids has no two records with one id (the codec
    giving back what was written): the store does not write the snapshots
    that [load] takes in only in part. *)
Theorem written_snapshot_ids_distinct c s fs s' fs' :
  fair (call_order c) → keyed (users s) →
  step c s fs = (s', fs', None) →
  (∀ o, fair o → roundtrips ((o (users s')).*2)) →
  NoDup (ID <$> snapshot_records (filePath s') fs').
Proof.
  intros Ho Hk Hstep Hrt.
  assert (keyed (users s')) as Hk'.
  { pose proof (step_keyed c s fs Hk) as Hk'. by rewrite Hstep in Hk'. }
  destruct (synced_snapshot s' fs') as (o' & Ho' & ->); [by eapply step_synced|done|].
  rewrite (keyed_ids o' _ Ho' Hk'), (Ho' _). apply NoDup_fst_map_to_list.
Qed.

(** X10. The ids of the index after a call: [Update] never adds or removes
    an id; [Create], unless rejected, adds the id of its record and no
    other; [Delete], unless rejected, removes its id and no other. *)
Theorem ids_after_call o w s fs :
  (∀ user, dom (users (Update o w user s fs).1.1) = dom (users s))
  ∧ (∀ user, ¬ rejected (Create o w user s fs).2 →
       dom (users (Create o w user s fs).1.1) = {[ID user]} ∪ dom (users s))
  ∧ (∀ id, ¬ rejected (Delete o w id s fs).2 →
       dom (users (Delete o w id s fs).1.1) = dom (users s) ∖ {[id]}).
Proof.
  split; [|split].
  - intros user. unfold Update. destruct (users s !! ID user) as [old|] eqn:Hold; [|done].
    destruct (existsb _ _); [done|]. destruct (save _ _ _ _). simpl.
    by apply dom_insert_lookup_L.
  - intros user. unfold Create. destruct (existsb _ _).
    + intros Hr. destruct Hr. by left.
    + destruct (save _ _ _ _). simpl. intros _. apply dom_insert_L.
  - intros id. unfold Delete. destruct (users s !! id) as [old|].
    + destruct (save _ _ _ _). simpl. intros _. apply dom_delete_L.
    + intros Hr. destruct Hr. by right.
Qed.

End Storage.

(** * Properties of the handlers *)

Section Api.
Context `{!JSONCodec}.

Implicit Types (o : order) (w : write_outcome) (s : JSONStore) (fs : FS).
Implicit Types (id uuid : string) (b : binding) (r : response).

Ltac statuses :=
  unfold StatusOK, StatusCreated, StatusNoContent, StatusBadRequest,
    StatusNotFound, StatusConflict, StatusInternalServerError in *.

(** X11. [GET /users] answers 200 with the live records, each once, and
    [GET /users/:id] answers 200 with the record under the id when there is
    one and 404 when there is none: neither answers 500. *)
Theorem read_handlers_never_fail o id s :
  fair o →
  (∃ us, (UserHandler_GetAll o s).1 = mkResponse StatusOK (UsersBody us)
         ∧ us ≡ₚ records (users s))
  ∧ (∀ u, users s !! id = Some u →
       (UserHandler_GetByID id s).1 = mkResponse StatusOK (UserBody u))
  ∧ (users s !! id = None →
       (UserHandler_GetByID id s).1 = mkResponse StatusNotFound (ErrorBody "User not found")).
Proof.
  intros Ho. split; [|split].
  - exists (o (users s)).*2. split; [done|]. by apply fair_records.
  - intros u Hu. unfold UserHandler_GetByID, GetByID. by rewrite Hu.
  - intros Hn. unfold UserHandler_GetByID, GetByID. by rewrite Hn.
Qed.

(** X12. [POST /users] answers 400 exactly when the body does not bind. For
    a body that binds it answers 409 exactly when a live record has the
    email, 201 exactly when none has and the persist step succeeds, and
    500 exactly when none has and the persist step fails. With 201 the
    body is the new user, its id the generated one and both timestamps the
    time of the request, and the index holds it under that id. *)
Theorem UserHandler_Create_status o w uuid now b s fs :
  fair o →
  (status (UserHandler_Create o w uuid now b s fs).1.2 = StatusBadRequest
     ↔ ∃ msg, b = BindError msg)
  ∧ (∀ name email, b = Bound name email →
       let user := mkUser uuid name email now now in
       let saved := (save o w (mkStore (filePath s) (<[uuid := user]> (users s))) fs).2 in
       let r := (UserHandler_Create o w uuid now b s fs).1.2 in
       (status r = StatusConflict ↔ email_taken email (users s))
       ∧ (status r = StatusCreated ↔ ¬ email_taken email (users s) ∧ saved = None)
       ∧ (status r = StatusInternalServerError
            ↔ ¬ email_taken email (users s) ∧ saved ≠ None)
       ∧ (status r = StatusCreated →
            payload r = UserBody user
            ∧ users (UserHandler_Create o w uuid now b s fs).1.1.1
              = <[uuid := user]> (users s))).
Proof.
  intros Ho. split.
  - destruct b as [msg|name email]; simpl; [by split; eauto|].
    split; [|by intros [? ?]].
    destruct (Create _ _ _ _ _) as [[s' fs'] [e|]]; [destruct (decide _)|]; by statuses.
  - intros name email -> user saved r. subst r. simpl. fold user.
    destruct (email_taken_dec email (users s)) as [Ht|Hf].
    + rewrite (Create_taken o w user s fs Ho Ht). simpl. statuses.
      repeat split; try done; by intros [? _].
    + rewrite (Create_free o w user s fs Ho Hf). simpl. fold saved.
      destruct (save _ _ _ _) as [fs' [e|]] eqn:Hs; simpl in *.
      * subst saved. destruct (decide _) as [->|_]; simpl.
        { by destruct (save_error _ _ _ _ _ _ Hs) as [|[? ?]]. }
        statuses. repeat split; try done; by intros [_ ?].
      * subst saved. statuses. repeat split; try done; by intros [_ ?].
Qed.

(** X13. [PUT /users/:id] answers 400 exactly when the body does not bind.
    For a body that binds it answers 404 exactly when [GetByID] finds no
    record under the id. When [GetByID] finds one, the answer is decided
    by the store as [Update] finds it, after what ran between the two
    calls: 409 exactly when the record is still there and a record under
    another id has the email; 200 exactly when it is still there, the
    email is free of other records and the persist step succeeds; 500
    exactly when it is there no more, or it is, the email is free and the
    persist step fails. With 200 the body is the record with the id of the
    path, the name and email of the request, the creation time of the
    record that [GetByID] found and the time of the request as update
    time, and the index holds it under the id. When nothing runs between
    the two calls, 500 is exactly the failure of the persist step. *)
Theorem UserHandler_Update_status o w id now b between s fs :
  fair o →
  let a := UserHandler_Update o w id now b between s fs in
  (status a.1.2 = StatusBadRequest ↔ ∃ msg, b = BindError msg)
  ∧ (∀ name email, b = Bound name email →
       (status a.1.2 = StatusNotFound ↔ users s !! id = None)
       ∧ (∀ old, users s !! id = Some old →
            let user := mkUser id name email (CreatedAt old) now in
            let s1 := (between s fs).1 in
            let saved :=
              (save o w (mkStore (filePath s1) (<[id := user]> (users s1)))
                 (between s fs).2).2 in
            (status a.1.2 = StatusConflict
               ↔ is_Some (users s1 !! id) ∧ email_taken_by_other id email (users s1))
            ∧ (status a.1.2 = StatusOK
                 ↔ is_Some (users s1 !! id)
                   ∧ ¬ email_taken_by_other id email (users s1) ∧ saved = None)
            ∧ (status a.1.2 = StatusInternalServerError
                 ↔ users s1 !! id = None
                   ∨ (¬ email_taken_by_other id email (users s1) ∧ saved ≠ None))
            ∧ (status a.1.2 = StatusOK →
                 payload a.1.2 = UserBody user ∧ users a.1.1.1 !! id = Some user)
            ∧ (between s fs = (s, fs) →
                 (status a.1.2 = StatusInternalServerError
                    ↔ ¬ email_taken_by_other id email (users s) ∧ saved ≠ None)))).
Proof.
  intros Ho a. subst a. split.
  - destruct b as [msg|name email]; simpl; [by split; eauto|].
    split; [|by intros [? ?]].
    unfold GetByID. destruct (users s !! id) as [old|]; simpl; [|by statuses].
    destruct (between s fs) as [s1 fs1].
    destruct (Update _ _ _ _ _) as [[s' fs'] [e|]]; [destruct (decide _)|]; by statuses.
  - intros name email ->. simpl. unfold GetByID.
    destruct (users s !! id) as [old|] eqn:Hold; simpl.
    2:{ statuses. split; [by split|]. by intros old' [=]. }
    destruct (between s fs) as [s1 fs1] eqn:Hb. simpl.
    set (user := mkUser id name email (CreatedAt old) now).
    destruct (users s1 !! id) as [old1|] eqn:Hold1.
    2:{ rewrite (Update_missing o w user s1 fs1 Hold1). simpl. statuses.
        split; [by split|]. intros old' [= <-]. simpl.
        split; [by split; [|intros [[? ?] _]]|].
        split; [by split; [|intros [[? ?] _]]|].
        split; [by split; [left|]|].
        split; [done|].
        intros [= -> ->]. by rewrite Hold in Hold1. }
    assert (is_Some (users s1 !! ID user)) as Hin by (by simpl; rewrite Hold1).
    assert (∀ P : Prop, (Some old1 = None ∨ P) ↔ P) as Hor.
    { intros P. split; [by intros [?|?]|by right]. }
    destruct (email_taken_by_other_dec id email (users s1)) as [Ht|Hf].
    + rewrite (Update_taken o w user s1 fs1 Ho Hin Ht). simpl. statuses.
      split; [by split|]. intros old' [= <-]. simpl.
      split; [by split; eauto|].
      split; [by split; [|intros (_ & ? & _)]|].
      split; [rewrite Hor; by split; [|intros [? _]]|].
      split; [done|].
      intros [= -> ->]. by split; [|intros [? _]].
    + rewrite (Update_free o w user s1 fs1 Ho Hin Hf). simpl.
      destruct (save _ _ _ _) as [fs' [e|]] eqn:Hs; simpl in *.
      * destruct (decide _) as [->|_]; simpl.
        { by destruct (save_error _ _ _ _ _ _ Hs) as [|[? ?]]. }
        statuses.
        split; [by split|]. intros old' [= <-]. simpl. fold user. rewrite Hs. simpl.
        split; [by split; [|intros [_ ?]]|].
        split; [by split; [|intros (_ & _ & ?)]|].
        split; [rewrite Hor; by split|].
        split; [done|].
        intros [= -> ->]. by split.
      * statuses.
        split; [by split|]. intros old' [= <-]. simpl. fold user. rewrite Hs. simpl.
        split; [by split; [|intros [_ ?]]|].
        split; [by split; eauto|].
        split; [rewrite Hor; by split; [|intros [_ ?]]|].
        split; [intros _; split; [done|by rewrite lookup_insert_eq]|].
        intros [= -> ->]. by split; [|intros [_ ?]].
Qed.

(** X14. [DELETE /users/:id] answers 404 exactly when no record is filed
    under the id, 204 exactly when one is and the persist step succeeds,
    500 exactly when one is and the persist step fails. *)
Theorem UserHandler_Delete_status o w id s fs :
  let r := (UserHandler_Delete o w id s fs).1.2 in
  let saved := (save o w (mkStore (filePath s) (delete id (users s))) fs).2 in
  (status r = StatusNotFound ↔ users s !! id = None)
  ∧ (status r = StatusNoContent ↔ is_Some (users s !! id) ∧ saved = None)
  ∧ (status r = StatusInternalServerError ↔ is_Some (users s !! id) ∧ saved ≠ None).
Proof.
  intros r saved. subst r. unfold UserHandler_Delete.
  destruct (users s !! id) as [old|] eqn:Hold.
  - rewrite (Delete_present o w id s fs (mk_is_Some _ _ Hold)). simpl. fold saved.
    destruct (save _ _ _ _) as [fs' [e|]] eqn:Hs; simpl in *; subst saved.
    + destruct (decide _) as [->|_]; simpl.
      { by destruct (save_error _ _ _ _ _ _ Hs) as [|[? ?]]. }
      statuses. repeat split; try done; by intros [_ ?].
    + statuses. repeat split; try done; by intros [_ ?].
  - rewrite (Delete_missing o w id s fs Hold). simpl. statuses.
    repeat split; try done; by intros [[? ?] _].
Qed.

Ltac save_error_absurd Hs :=
  match goal with
  | |- _ => by destruct (save_error _ _ _ _ _ _ Hs) as [|[? ?]]
  end.

(** X15. A request that is answered 400, 404 or 409 changes neither the
    index nor any file. *)
Theorem client_errors_change_nothing x s fs :
  let r := (serve x s fs).1.2 in
  status r = StatusBadRequest ∨ status r = StatusNotFound ∨ status r = StatusConflict →
  (serve x s fs).1.1 = (s, fs).
Proof.
  intros r. subst r. unfold serve.
  destruct (ex_request x) as [|id|uuid now b|id now b|id]; simpl; statuses.
  - done.
  - by destruct (UserHandler_GetByID id s).
  - destruct b as [msg|name email]; simpl; [done|].
    unfold Create. destruct (existsb _ _); [done|].
    destruct (save _ _ _ _) as [fs' [e|]] eqn:Hs; simpl.
    + destruct (decide _) as [->|_]; [save_error_absurd Hs|]. simpl. by intros [|[|]].
    + by intros [|[|]].
  - destruct b as [msg|name email]; simpl; [done|].
    unfold GetByID. destruct (users s !! id) as [old|] eqn:Hold; simpl; [|done].
    unfold Update. simpl. rewrite Hold. destruct (existsb _ _); [done|].
    destruct (save _ _ _ _) as [fs' [e|]] eqn:Hs; simpl.
    + destruct (decide _) as [->|_]; [save_error_absurd Hs|]. simpl. by intros [|[|]].
    + by intros [|[|]].
  - unfold UserHandler_Delete, Delete. destruct (users s !! id) as [old|]; simpl; [|done].
    destruct (save _ _ _ _) as [fs' [e|]] eqn:Hs; simpl.
    + destruct (decide _) as [->|_]; [save_error_absurd Hs|]. simpl. by intros [|[|]].
    + by intros [|[|]].
Qed.

Ltac not_among H :=
  repeat (apply elem_of_cons in H as [H|H]; [discriminate H|]);
  by apply elem_of_nil in H.

Ltac among := solve [eexists; repeat (first [by left | right])].

Ltac among2 := solve [eexists _, _; repeat (first [by left | right])].

Ltac telemetry_case :=
  simpl; statuses;
  split; [|split];
  (split;
   [ first [ done
           | (let Hin := fresh "Hin" in intros [? Hin]; not_among Hin)
           | (let Hin := fresh "Hin" in intros (? & ? & Hin); not_among Hin)
           | intros _; by eauto ]
   | first [ done
           | by intros [|[|]]
           | intros _; among
           | intros _; among2 ] ]).

(** X16. Whatever the request, the handler records an error on the span
    exactly when it answers 500, logs at the error level exactly when it
    answers 500, and logs at the warning level exactly when it answers
    400, 404 or 409. *)
Theorem error_telemetry x s fs :
  let r := (serve x s fs).1.2 in
  let evs := (serve x s fs).2 in
  ((∃ e, RecordError e ∈ evs) ↔ status r = StatusInternalServerError)
  ∧ ((∃ msg args, Log LevelError msg args ∈ evs) ↔ status r = StatusInternalServerError)
  ∧ ((∃ msg args, Log LevelWarn msg args ∈ evs)
       ↔ status r = StatusBadRequest ∨ status r = StatusNotFound
         ∨ status r = StatusConflict).
Proof.
  intros r evs. subst r evs. unfold serve.
  destruct (ex_request x) as [|id|uuid now b|id now b|id]; simpl.
  - telemetry_case.
  - unfold UserHandler_GetByID, GetByID. destruct (users s !! id); telemetry_case.
  - destruct b as [msg|name email]; [telemetry_case|]. simpl.
    destruct (Create _ _ _ _ _) as [[s' fs'] [e|]]; [destruct (decide _)|]; telemetry_case.
  - destruct b as [msg|name email]; [telemetry_case|]. simpl.
    unfold GetByID. destruct (users s !! id) as [old|]; [|telemetry_case].
    destruct (Update _ _ _ _ _) as [[s' fs'] [e|]]; [destruct (decide _)|]; telemetry_case.
  - unfold UserHandler_Delete.
    destruct (Delete _ _ _ _ _) as [[s' fs'] [e|]]; [destruct (decide _)|]; telemetry_case.
Qed.

Lemma serve_all_cons x xs s fs :
  serve_all (x :: xs) s fs =
    let a := serve x s fs in
    let b := serve_all xs a.1.1.1 a.1.1.2 in
    (b.1.1.1, b.1.1.2, a.1.2 :: b.1.2, (a.2 ++ b.2)%list).
Proof.
  simpl. destruct (serve x s fs) as [[[s1 fs1] r] evs]. simpl.
  by destruct (serve_all xs s1 fs1) as [[[s2 fs2] rs] evs'].
Qed.

(** A request other than the deletion of [k] and the creation of a user
    with the id [k] keeps the record under [k] or gives it a successor
    with the same creation time. *)
Lemma serve_keeps_created_at x s fs k u :
  users s !! k = Some u →
  ex_request x ≠ DELETE_user k →
  (∀ now name email, ex_request x ≠ POST_users k now (Bound name email)) →
  ∃ u', users (serve x s fs).1.1.1 !! k = Some u' ∧ CreatedAt u' = CreatedAt u.
Proof.
  intros Hk Hdel Hpost. unfold serve.
  destruct (ex_request x) as [|id|uuid now b|id now b|id]; simpl.
  - eauto.
  - destruct (UserHandler_GetByID id s). eauto.
  - destruct b as [msg|name email]; simpl; [by eauto|].
    unfold Create. destruct (existsb _ _); simpl; [by eauto|].
    destruct (save _ _ _ _) as [fs' [e|]]; [destruct (decide _)|]; simpl;
      (rewrite lookup_insert_ne; [by eauto|]); intros ->; by eapply Hpost.
  - destruct b as [msg|name email]; simpl; [by eauto|].
    unfold GetByID. destruct (users s !! id) as [old|] eqn:Hold; simpl; [|by eauto].
    unfold Update. simpl. rewrite Hold. destruct (existsb _ _); simpl; [by eauto|].
    destruct (decide (id = k)) as [->|Hne].
    + rewrite Hk in Hold. injection Hold as <-.
      destruct (save _ _ _ _) as [fs' [e|]]; [destruct (decide _)|]; simpl;
        rewrite lookup_insert_eq; by eauto.
    + destruct (save _ _ _ _) as [fs' [e|]]; [destruct (decide _)|]; simpl;
        rewrite lookup_insert_ne by done; by eauto.
  - assert (id ≠ k) as Hne by (by intros ->).
    unfold UserHandler_Delete, Delete. destruct (users s !! id) as [old|]; simpl; [|by eauto].
    destruct (save _ _ _ _) as [fs' [e|]]; [destruct (decide _)|]; simpl;
      rewrite lookup_delete_ne by done; by eauto.
Qed.

(** X17. Through any sequence of requests that neither deletes the id [k]
    nor creates a user under the generated id [k], the record under [k]
    stays and keeps its creation time, whatever the [PUT] requests put
    into it and whether their persist steps succeed or not. *)
Theorem created_at_immutable xs s fs k u :
  users s !! k = Some u →
  k ∉ uuids xs →
  (∀ x, x ∈ xs → ex_request x ≠ DELETE_user k) →
  ∃ u', users (serve_all xs s fs).1.1.1 !! k = Some u' ∧ CreatedAt u' = CreatedAt u.
Proof.
  revert s fs u. induction xs as [|x xs IH]; intros s fs u Hk Hfresh Hdel.
  - simpl. eauto.
  - rewrite serve_all_cons. simpl.
    destruct (serve_keeps_created_at x s fs k u Hk) as (u1 & Hk1 & Hc1).
    + apply Hdel. by left.
    + intros now name email Hx. apply Hfresh. simpl. rewrite Hx. by left.
    + destruct (IH (serve x s fs).1.1.1 (serve x s fs).1.1.2 u1 Hk1) as (u2 & Hk2 & Hc2).
      * intros Hin. apply Hfresh. simpl.
        destruct (ex_request x) as [| |? ? [|]| |]; try done. by right.
      * intros y Hy. apply Hdel. by right.
      * exists u2. split; [done|]. by rewrite Hc2.
Qed.

(** X18. The record that a request puts into the index is the one a read
    then gets: after a [POST] answered 201 and after a [PUT] answered 200,
    whatever ran between the two store calls of the [PUT],
    [GET /users/:id] for that id answers 200 with the same body; after a
    [DELETE] answered 204 it answers 404. *)
Theorem read_your_writes o w now b s fs :
  (∀ uuid, let a := UserHandler_Create o w uuid now b s fs in
     status a.1.2 = StatusCreated →
     (UserHandler_GetByID uuid a.1.1.1).1 = mkResponse StatusOK (payload a.1.2))
  ∧ (∀ id between, let a := UserHandler_Update o w id now b between s fs in
       status a.1.2 = StatusOK →
       (UserHandler_GetByID id a.1.1.1).1 = mkResponse StatusOK (payload a.1.2))
  ∧ (∀ id, let a := UserHandler_Delete o w id s fs in
       status a.1.2 = StatusNoContent →
       (UserHandler_GetByID id a.1.1.1).1
       = mkResponse StatusNotFound (ErrorBody "User not found")).
Proof.
  split; [|split].
  - intros uuid a. subst a. destruct b as [msg|name email]; simpl; [by statuses|].
    unfold Create. destruct (existsb _ _); simpl; [by statuses|].
    destruct (save _ _ _ _) as [fs' [e|]]; [destruct (decide _)|]; simpl;
      [by statuses..|].
    intros _. unfold UserHandler_GetByID, GetByID. simpl. by rewrite lookup_insert_eq.
  - intros id between a. subst a. destruct b as [msg|name email]; simpl; [by statuses|].
    unfold GetByID at 1 2 3. destruct (users s !! id) as [old|] eqn:Hold; simpl;
      [|by statuses].
    destruct (between s fs) as [s1 fs1].
    unfold Update. simpl. destruct (users s1 !! id) as [old1|]; simpl; [|by statuses].
    destruct (existsb _ _); simpl; [by statuses|].
    destruct (save _ _ _ _) as [fs' [e|]]; [destruct (decide _)|]; simpl;
      [by statuses..|].
    intros _. unfold UserHandler_GetByID, GetByID. simpl. by rewrite lookup_insert_eq.
  - intros id a. subst a. unfold UserHandler_Delete, Delete.
    destruct (users s !! id) as [old|] eqn:Hold; simpl; [|by statuses].
    destruct (save _ _ _ _) as [fs' [e|]]; [destruct (decide _)|]; simpl;
      [by statuses..|].
    intros _. unfold UserHandler_GetByID, GetByID. simpl. by rewrite lookup_delete_eq.
Qed.

Lemma total_app m evs evs' :
  total m (evs ++ evs') = (total m evs + total m evs')%Z.
Proof.
  induction evs as [|[| | |m' n attrs] evs IH]; simpl; [done..|].
  destruct (decide (m' = m)); lia.
Qed.

(** X19. A 500 does not undo the request. After a [POST] answered 500 the
    new user is in the index, [GET] for the generated id answers 200 with
    it, and the gauge of users was not raised. After a [PUT] answered 500
    for a record that [GetByID] found: when the record is still there at
    the call of [Update], [GET] answers 200 with the new version; when it
    was deleted between the two calls, nothing is changed and [GET]
    answers 404. After a [DELETE] answered 500 the record is gone, [GET]
    answers 404, and the gauge was not lowered. *)
Theorem failed_persist_is_visible o w now name email s fs :
  (∀ uuid, let a := UserHandler_Create o w uuid now (Bound name email) s fs in
     status a.1.2 = StatusInternalServerError →
     (UserHandler_GetByID uuid a.1.1.1).1
     = mkResponse StatusOK (UserBody (mkUser uuid name email now now))
     ∧ total userCounter a.2 = 0%Z)
  ∧ (∀ id old between,
       let a := UserHandler_Update o w id now (Bound name email) between s fs in
       users s !! id = Some old →
       status a.1.2 = StatusInternalServerError →
       (is_Some (users (between s fs).1 !! id) →
          (UserHandler_GetByID id a.1.1.1).1
          = mkResponse StatusOK (UserBody (mkUser id name email (CreatedAt old) now)))
       ∧ (users (between s fs).1 !! id = None →
            a.1.1 = between s fs
            ∧ (UserHandler_GetByID id a.1.1.1).1
              = mkResponse StatusNotFound (ErrorBody "User not found")))
  ∧ (∀ id, let a := UserHandler_Delete o w id s fs in
       status a.1.2 = StatusInternalServerError →
       (UserHandler_GetByID id a.1.1.1).1
       = mkResponse StatusNotFound (ErrorBody "User not found")
       ∧ total userCounter a.2 = 0%Z).
Proof.
  split; [|split].
  - intros uuid a. subst a. simpl.
    unfold Create. destruct (existsb _ _); simpl; [by statuses|].
    destruct (save _ _ _ _) as [fs' [e|]]; [destruct (decide _)|]; simpl;
      [by statuses| |by statuses].
    intros _. unfold UserHandler_GetByID, GetByID. simpl. by rewrite lookup_insert_eq.
  - intros id old between a Hold. subst a. simpl.
    unfold GetByID at 1 2 3 4. rewrite Hold. simpl.
    destruct (between s fs) as [s1 fs1]. simpl.
    unfold Update. simpl. destruct (users s1 !! id) as [old1|] eqn:Hold1; simpl.
    + destruct (existsb _ _); simpl; [by statuses|].
      destruct (save _ _ _ _) as [fs' [e|]]; [destruct (decide _)|]; simpl;
        [by statuses| |by statuses].
      intros _. split; [|done]. intros _.
      unfold UserHandler_GetByID, GetByID. simpl. by rewrite lookup_insert_eq.
    + intros _. split; [by intros [? ?]|]. intros _. split; [done|].
      unfold UserHandler_GetByID, GetByID. by rewrite Hold1.
  - intros id a. subst a. unfold UserHandler_Delete, Delete.
    destruct (users s !! id) as [old|] eqn:Hold; simpl; [|by statuses].
    destruct (save _ _ _ _) as [fs' [e|]]; [destruct (decide _)|]; simpl;
      [by statuses| |by statuses].
    intros _. unfold UserHandler_GetByID, GetByID. simpl. by rewrite lookup_delete_eq.
Qed.

(** An id that is not in the index is not in it after a request, unless the
    request creates a user under it. *)
Lemma serve_fresh x s fs k :
  users s !! k = None →
  (∀ now name email, ex_request x ≠ POST_users k now (Bound name email)) →
  users (serve x s fs).1.1.1 !! k = None.
Proof.
  intros Hk Hpost. unfold serve.
  destruct (ex_request x) as [|id|uuid now b|id now b|id]; simpl.
  - done.
  - by destruct (UserHandler_GetByID id s).
  - destruct b as [msg|name email]; simpl; [done|].
    unfold Create. destruct (existsb _ _); simpl; [done|].
    destruct (save _ _ _ _) as [fs' [e|]]; [destruct (decide _)|]; simpl;
      (rewrite lookup_insert_ne; [done|]); intros ->; by eapply Hpost.
  - destruct b as [msg|name email]; simpl; [done|].
    unfold GetByID. destruct (users s !! id) as [old|] eqn:Hold; simpl; [|done].
    unfold Update. simpl. rewrite Hold. destruct (existsb _ _); simpl; [done|].
    assert (id ≠ k) as Hne by (intros ->; by rewrite Hk in Hold).
    destruct (save _ _ _ _) as [fs' [e|]]; [destruct (decide _)|]; simpl;
      by rewrite lookup_insert_ne.
  - unfold UserHandler_Delete, Delete. destruct (users s !! id) as [old|]; simpl; [|done].
    destruct (save _ _ _ _) as [fs' [e|]]; [destruct (decide _)|]; simpl;
      by rewrite lookup_delete_None; right.
Qed.

Lemma size_pos_lookup (m : gmap string User) k u : m !! k = Some u → size m ≠ 0.
Proof.
  intros Hk Hz. apply map_size_empty_iff in Hz. by rewrite Hz, lookup_empty in Hk.
Qed.

(** A call of the store is rejected and changes nothing, or goes through to
    the persist step with the index changed. *)
Lemma Create_cases o w user s fs :
  Create o w user s fs = (s, fs, Some ErrUserExists)
  ∨ ∃ fs' e, Create o w user s fs
             = (mkStore (filePath s) (<[ID user := user]> (users s)), fs', e)
             ∧ e ≠ Some ErrUserExists.
Proof.
  unfold Create. destruct (existsb _ _); [by left|]. right.
  destruct (save _ _ _ _) as [fs' e] eqn:Hs. exists fs', e. split; [done|].
  intros ->. save_error_absurd Hs.
Qed.

Lemma Update_cases o w user old s fs :
  users s !! ID user = Some old →
  Update o w user s fs = (s, fs, Some ErrUserExists)
  ∨ ∃ fs' e, Update o w user s fs
             = (mkStore (filePath s) (<[ID user := user]> (users s)), fs', e)
             ∧ e ≠ Some ErrUserExists.
Proof.
  intros Hold. unfold Update. rewrite Hold. destruct (existsb _ _); [by left|]. right.
  destruct (save _ _ _ _) as [fs' e] eqn:Hs. exists fs', e. split; [done|].
  intros ->. save_error_absurd Hs.
Qed.

Lemma Delete_cases o w id s fs :
  (users s !! id = None ∧ Delete o w id s fs = (s, fs, Some ErrUserNotFound))
  ∨ ∃ old fs' e, users s !! id = Some old
                 ∧ Delete o w id s fs
                   = (mkStore (filePath s) (delete id (users s)), fs', e)
                 ∧ e ≠ Some ErrUserNotFound.
Proof.
  unfold Delete. destruct (users s !! id) as [old|]; [|by left]. right.
  destruct (save _ _ _ _) as [fs' e] eqn:Hs. exists old, fs', e.
  split; [done|]. split; [done|]. intros ->. save_error_absurd Hs.
Qed.

(** What a request that is not answered 500 adds to the gauge of users is
    what it adds to the index, the id of a created user being new. *)
Lemma serve_gauge x s fs :
  status (serve x s fs).1.2 ≠ StatusInternalServerError →
  (∀ uuid now name email,
     ex_request x = POST_users uuid now (Bound name email) → users s !! uuid = None) →
  (total userCounter (serve x s fs).2 + Z.of_nat (size (users s)))%Z
  = Z.of_nat (size (users (serve x s fs).1.1.1)).
Proof.
  unfold serve.
  destruct (ex_request x) as [|id|uuid now b|id now b|id]; simpl; intros H500 Hfresh.
  - done.
  - unfold UserHandler_GetByID. by destruct (GetByID id s) as [u [e|]]; [destruct (decide _)|].
  - destruct b as [msg|name email]; simpl; [done|].
    specialize (Hfresh uuid now name email eq_refl). revert H500. simpl.
    destruct (Create_cases (ex_order x) (ex_write x) (mkUser uuid name email now now) s fs)
      as [->|(fs' & e & -> & Hne)]; simpl; [done|].
    destruct e as [e|]; simpl.
    + destruct (decide _) as [->|_]; [done|]. simpl. by statuses.
    + intros _. rewrite map_size_insert_None by done. lia.
  - destruct b as [msg|name email]; simpl; [done|]. revert H500. simpl.
    unfold GetByID. destruct (users s !! id) as [old|] eqn:Hold; simpl; [|done].
    destruct (Update_cases (ex_order x) (ex_write x)
                (mkUser id name email (CreatedAt old) now) old s fs Hold)
      as [->|(fs' & e & -> & Hne)]; simpl; [done|].
    destruct e as [e|]; simpl.
    + destruct (decide _) as [->|_]; [done|]. simpl. by statuses.
    + intros _. by rewrite map_size_insert_Some.
  - revert H500. unfold UserHandler_Delete.
    destruct (Delete_cases (ex_order x) (ex_write x) id s fs)
      as [[_ ->]|(old & fs' & e & Hold & -> & Hne)]; simpl; [done|].
    destruct e as [e|]; simpl.
    + destruct (decide _) as [->|_]; [done|]. simpl. by statuses.
    + intros _. rewrite map_size_delete_Some by done.
      pose proof (size_pos_lookup _ _ _ Hold). lia.
Qed.

Lemma serve_all_gauge xs s fs :
  NoDup (uuids xs) →
  (∀ id, id ∈ uuids xs → users s !! id = None) →
  Forall (λ r, status r ≠ StatusInternalServerError) (serve_all xs s fs).1.2 →
  (total userCounter (serve_all xs s fs).2 + Z.of_nat (size (users s)))%Z
  = Z.of_nat (size (users (serve_all xs s fs).1.1.1)).
Proof.
  revert s fs. induction xs as [|x xs IH]; intros s fs Hnd Hfresh; [done|].
  rewrite serve_all_cons. simpl. intros Hok. apply Forall_cons in Hok as [Hx Hok].
  rewrite total_app, <- IH; [|..|done].
  - rewrite <- (serve_gauge x s fs); [lia|done|].
    intros uuid now name email Hreq. apply Hfresh. simpl. rewrite Hreq. by left.
  - simpl in Hnd. destruct (ex_request x) as [| |? ? [|]| |]; try done.
    by apply NoDup_cons in Hnd as [_ ?].
  - intros id Hin. apply serve_fresh.
    + apply Hfresh. simpl. destruct (ex_request x) as [| |? ? [|]| |]; try done. by right.
    + intros now name email Hreq. simpl in Hnd. rewrite Hreq in Hnd.
      by apply NoDup_cons in Hnd as [? _].
Qed.

(** X20. Made over a store, the handler sets the gauge of users to the
    number of live records. After any sequence of requests of which none is
    answered 500, the users that are created getting ids that are new and
    differ from one another, the gauge is again the number of live records
    of the index. *)
Theorem users_total_counts_index o0 e1 e2 e3 e4 xs s fs :
  fair o0 →
  NoDup (uuids xs) →
  (∀ id, id ∈ uuids xs → users s !! id = None) →
  Forall (λ r, status r ≠ StatusInternalServerError) (serve_all xs s fs).1.2 →
  total userCounter (NewUserHandler o0 e1 e2 e3 e4 s ++ (serve_all xs s fs).2)
  = Z.of_nat (size (users (serve_all xs s fs).1.1.1)).
Proof.
  intros Ho Hnd Hfresh Hok.
  rewrite total_app, <- (serve_all_gauge xs s fs) by done.
  assert (total userCounter (NewUserHandler o0 e1 e2 e3 e4 s)
          = Z.of_nat (size (users s))) as ->; [|lia].
  unfold NewUserHandler, GetAll.
  rewrite !total_app. simpl.
  rewrite (fair_records o0 _ Ho). unfold records.
  rewrite length_fmap, length_map_to_list.
  destruct e1, e2, e3, e4; simpl; lia.
Qed.

Lemma serve_counters x s fs :
  total userOperations (serve x s fs).2 = 1%Z
  ∧ total usersCreated (serve x s fs).2
    = (if decide (status (serve x s fs).1.2 = StatusCreated) then 1 else 0)%Z
  ∧ total usersDeleted (serve x s fs).2
    = (if decide (status (serve x s fs).1.2 = StatusNoContent) then 1 else 0)%Z.
Proof.
  unfold serve.
  destruct (ex_request x) as [|id|uuid now b|id now b|id]; simpl.
  - done.
  - unfold UserHandler_GetByID. by destruct (GetByID id s) as [u [e|]]; [destruct (decide _)|].
  - destruct b as [msg|name email]; simpl; [done|].
    by destruct (Create _ _ _ _ _) as [[s' fs'] [e|]]; [destruct (decide _)|].
  - destruct b as [msg|name email]; simpl; [done|].
    destruct (GetByID id s) as [u [e|]]; [by destruct (decide _)|].
    by destruct (Update _ _ _ _ _) as [[s' fs'] [e|]]; [destruct (decide _)|].
  - unfold UserHandler_Delete.
    by destruct (Delete _ _ _ _ _) as [[s' fs'] [e|]]; [destruct (decide _)|].
Qed.

(** X21. Over any sequence of requests, the counter of operations counts the
    requests, the counter of created users the answers 201 and the counter
    of deleted users the answers 204. *)
Theorem counters_count_responses xs s fs :
  total userOperations (serve_all xs s fs).2 = Z.of_nat (length xs)
  ∧ total usersCreated (serve_all xs s fs).2
    = Z.of_nat (length (filter (λ r, status r = StatusCreated) (serve_all xs s fs).1.2))
  ∧ total usersDeleted (serve_all xs s fs).2
    = Z.of_nat (length (filter (λ r, status r = StatusNoContent) (serve_all xs s fs).1.2)).
Proof.
  revert s fs. induction xs as [|x xs IH]; intros s fs; [done|].
  rewrite serve_all_cons. simpl. rewrite !total_app, !filter_cons.
  destruct (serve_counters x s fs) as (-> & -> & ->).
  destruct (IH (serve x s fs).1.1.1 (serve x s fs).1.1.2) as (-> & -> & ->).
  split; [lia|]. split; destruct (decide _); simpl; lia.
Qed.

End Api.

(** * Properties of main *)

(** X22. [getEnv] returns the value of a variable that is set and not
    empty, and the default for a variable that is not set or is set to the
    empty string; its result is empty only when the default is. *)
Theorem getEnv_default env key defaultValue :
  (∀ v, env !! key = Some v → v ≠ "" → getEnv env key defaultValue = v)
  ∧ (env !! key = None ∨ env !! key = Some "" → getEnv env key defaultValue = defaultValue)
  ∧ (defaultValue ≠ "" → getEnv env key defaultValue ≠ "").
Proof.
  unfold getEnv, Getenv. split; [|split].
  - intros v -> Hv. simpl. apply String.eqb_neq in Hv. by rewrite Hv.
  - by intros [-> | ->].
  - intros Hd. destruct (env !! key) as [v|]; simpl; [|done].
    destruct (String.eqb v "") eqn:Hv; simpl; [done|]. by apply String.eqb_neq.
Qed.

Lemma shutdownAll_fold (fns : list (option error)) (acc : option error) :
  foldl (λ err shutdownErr,
           match shutdownErr with Some e => Some e | None => err end) acc fns
  = match last (omap id fns) with Some e => Some e | None => acc end.
Proof.
  revert acc. induction fns as [|[e|] fns IH]; intros acc; simpl; [done| |by rewrite IH].
  rewrite IH, last_cons. by destruct (last _).
Qed.

(** X23. The shutdown function of [initOtel] returns no error exactly when
    no shutdown function fails, and otherwise the error of the last one
    that fails, not of the first. *)
Theorem shutdownAll_last_error fns :
  (shutdownAll fns = None ↔ Forall (λ r, r = None) fns)
  ∧ shutdownAll fns = last (omap id fns).
Proof.
  assert (shutdownAll fns = last (omap id fns)) as Heq.
  { unfold shutdownAll. rewrite shutdownAll_fold. by destruct (last _). }
  split; [|done]. rewrite Heq. clear Heq.
  induction fns as [|[e|] fns IH]; simpl.
  - by split.
  - rewrite last_cons. split.
    + by destruct (last _).
    + intros Hall. by apply Forall_cons in Hall as [? _].
  - rewrite IH. split; [by constructor|]. intros Hall. by apply Forall_cons in Hall as [_ ?].
Qed.

#[local] Existing Instance wireCodec.

(** * Concrete runs *)

Lemma fair_singleton o k u : fair o → o (<[k := u]> ∅) = [(k, u)].
Proof.
  intros Ho. apply Permutation_singleton_r.
  by rewrite (Ho _), insert_empty, map_to_list_singleton.
Qed.

Lemma unique_emails_singleton k u : unique_emails (<[k := u]> ∅).
Proof.
  intros i j ui uj Hi Hj _.
  apply lookup_insert_Some in Hi as [[<- _]|[_ Hi]]; [|by rewrite lookup_empty in Hi].
  apply lookup_insert_Some in Hj as [[<- _]|[_ Hj]]; [done|by rewrite lookup_empty in Hj].
Qed.

Lemma wire_roundtrips_alice o : fair o → roundtrips ((o (<["1" := alice]> ∅)).*2).
Proof.
  intros Ho. rewrite (fair_singleton o _ _ Ho). intros data Hm.
  vm_compute in Hm. injection Hm as <-. by vm_compute.
Qed.

Ltac email_free :=
  let H := fresh in
  intros H; apply (scan_create canonical _ _ fair_canonical) in H;
  vm_compute in H; discriminate H.

(** Emails that differ in the case of a letter are different emails. *)
Example Create_case_sensitive :
  (Create canonical Written (mkUser "3" "Alice" "A@x.com" "t2" "t2") s_alice fs0).2 = None.
Proof. by vm_compute. Qed.

(** The scenario of the spec: A is created, B with the email of A is
    refused, A takes a new email, A is deleted. *)
Example scenario :
  let b := mkUser "2" "B" "a@x.com" "t1" "t1" in
  let a' := mkUser "1" "Alice" "b@x.com" "t0" "t2" in
  let '(s, fs, es) := exec [create alice; create b; update a'] s0 fs0 in
  es = [None; Some ErrUserExists; None]
  ∧ (GetAll canonical s).1 = [a']
  ∧ let '(s', fs', es') := exec [remove "1"] s fs in
    es' = [None] ∧ GetAll canonical s' = ([], None)
    ∧ GetByID "1" s' = (zeroUser, Some ErrUserNotFound).
Proof. by vm_compute. Qed.

(** ** C1 *)

(** C1 fails on the code: the write of [Create] fails on the empty store,
    [Create] returns the error, and the record is in the index all the
    same, where [GetByID] and [GetAll] find it. *)
Lemma rollback_fails :
  let '(s', _, e) := Create canonical disk_full alice s0 fs0 in
  e = Some (ErrOS "no space left on device")
  ∧ users s0 !! "1" = None
  ∧ users s' !! "1" = Some alice
  ∧ GetByID "1" s' = (alice, None)
  ∧ (GetAll canonical s').1 = [alice].
Proof. by vm_compute. Qed.

Lemma persist_failure_keeps_mutation_witness :
  Create canonical disk_full alice s0 fs0
    = (s_alice, mkFS (delete users_json ∅) 0, Some (ErrOS "no space left on device"))
  ∧ GetByID "1" s_alice = (alice, None).
Proof.
  destruct (persist_failure_keeps_mutation canonical disk_full s0 fs0
              (mkFS (delete users_json ∅) 0) (ErrOS "no space left on device")
              fair_canonical) as [Hc _].
  destruct (Hc alice) as (H1 & _ & H3); [email_free|reflexivity|].
  by split.
Defined.

(** ** C2 *)

Lemma emails_stay_unique_witness :
  unique_emails (users (exec (take 2 [create alice; create bob; update alice]) s0 fs0).1.1).
Proof.
  apply emails_stay_unique.
  - intros i j ui uj Hi. unfold s0 in Hi. simpl in Hi. by rewrite lookup_empty in Hi.
  - repeat constructor; exact fair_canonical.
Defined.

(** ** C4 *)

Lemma Create_AlreadyExists_iff_witness :
  (Create canonical Written bob s_alice fs0).1.1
    = mkStore users_json (<["2" := bob]> (<["1" := alice]> ∅))
  ∧ (Create canonical Written bob s_alice fs0).2 = None.
Proof.
  destruct (Create_AlreadyExists_iff canonical Written bob s_alice fs0 fair_canonical)
    as [_ Hfree].
  destruct Hfree as [H1 H2]; [email_free|].
  split; [exact H1|]. apply H2. reflexivity.
Defined.

(** ** C5 *)

(** C5 fails on the code. An update of an id that is not in the store is
    refused with [ErrUserNotFound], though a record under another id has
    the email. And in the store loaded from a snapshot in which two records
    share an email, the update of one of them to the email it has is
    refused with [ErrUserExists]. *)
Lemma Update_AlreadyExists_iff_fails :
  let r := mkUser "2" "Bob" "a@x.com" "t1" "t1" in
  (email_taken_by_other (ID r) (Email r) (users s_alice)
   ∧ (Update canonical Written r s_alice fs0).2 = Some ErrUserNotFound)
  ∧ let twins := mkFS {[ users_json :=
         Regular (x5b :: Wire.put_user alice ++ Wire.put_user r ++ [x5d]) ]} 0 in
    ∃ s, (NewJSONStore None users_json twins).1 = Ok s
         ∧ users s !! ID alice = Some alice
         ∧ (Update canonical Written alice s twins).2 = Some ErrUserExists.
Proof.
  intros r. split.
  - split; [|by vm_compute]. exists "1", alice. by vm_compute.
  - eexists. split; [by vm_compute|]. by vm_compute.
Qed.

Lemma Update_AlreadyExists_iff_witness :
  let r := mkUser "1" "Alice Cooper" "a@x.com" "t0" "t5" in
  (Update canonical Written r s_alice fs0).1.1 = mkStore users_json (<["1" := r]> (<["1" := alice]> ∅))
  ∧ (Update canonical Written r s_alice fs0).2 = None.
Proof.
  intros r.
  destruct (Update_AlreadyExists_iff canonical Written r s_alice fs0 fair_canonical)
    as (_ & _ & Hself).
  destruct (Hself alice) as [H1 H2]; [reflexivity|reflexivity| |].
  - apply unique_emails_singleton.
  - split; [exact H1|]. apply H2. reflexivity.
Defined.

(** ** C3 *)



(** ** C6 *)

Lemma Update_stores_verbatim_witness :
  let r := mkUser "1" "Alice Cooper" "ac@x.com" "t0" "t5" in
  GetByID "1" (Update canonical Written r s_alice fs0).1.1 = (r, None).
Proof.
  intros r.
  destruct (Update_stores_verbatim canonical Written r s_alice fs0
              (Update canonical Written r s_alice fs0).1.1
              (Update canonical Written r s_alice fs0).1.2) as (_ & _ & Hg & _).
  - reflexivity.
  - exact Hg.
Defined.

(** Three updates of one record that carry its creation time forward. *)
Example created_at_carried_forward :
  let '(s, _, es) :=
    exec [create alice;
          update (mkUser "1" "Al" "a@x.com" "t0" "t3");
          update (mkUser "1" "Al" "al@x.com" "t0" "t4");
          update (mkUser "1" "Alice" "al@x.com" "t0" "t5")] s0 fs0 in
  es = [None; None; None; None] ∧ CreatedAt (GetByID "1" s).1 = CreatedAt alice.
Proof. by vm_compute. Qed.

(** ** C7 *)

Lemma GetByID_after_witness :
  GetByID "1" (Create canonical Written alice s0 fs0).1.1 = (alice, None)
  ∧ GetByID "1" (Delete canonical Written "1" s_alice fs0).1.1
      = (zeroUser, Some ErrUserNotFound).
Proof.
  split.
  - apply (proj1 (GetByID_after canonical Written s0 fs0) alice _
             (Create canonical Written alice s0 fs0).1.2).
    reflexivity.
  - apply (proj1 (proj2 (GetByID_after canonical Written s_alice fs0)) "1" _
             (Delete canonical Written "1" s_alice fs0).1.2).
    reflexivity.
Defined.

(** ** C8 *)

(** C8 fails on the code: the directory cannot be made, the path has no
    file, and [NewJSONStore] gives an error and no store, the file not
    read. *)
Lemma NewJSONStore_mkdir_fails :
  files fs0 !! users_json = None
  ∧ NewJSONStore (Some "mkdir data: permission denied") users_json fs0
    = (Err (ErrOS "mkdir data: permission denied"), fs0)
  ∧ reads (NewJSONStore (Some "mkdir data: permission denied") users_json fs0).2 = 0.
Proof. by vm_compute. Qed.

Lemma NewJSONStore_load_witness :
  (NewJSONStore None users_json fs0).1 = Ok s0
  ∧ (NewJSONStore None users_json (mkFS {[ users_json := Regular [] ]} 0)).1 = Ok s0
  ∧ (∃ e, (NewJSONStore None users_json (mkFS {[ users_json := Regular [x7b; x7d] ]} 0)).1
          = Err e)
  ∧ (NewJSONStore None users_json (mkFS {[ users_json := Regular two_under_one ]} 0)).1
    = Ok (mkStore users_json
            (<["1" := mkUser "1" "Alice" "c@x.com" "t0" "t2"]> (<["1" := alice]> ∅))).
Proof.
  split; [|split; [|split]].
  - apply (proj1 (proj2 (proj2 (NewJSONStore_load users_json fs0)))). reflexivity.
  - apply (proj1 (proj2 (proj2 (proj2 (NewJSONStore_load users_json
                                         (mkFS {[ users_json := Regular [] ]} 0)))))).
    reflexivity.
  - apply (proj1 (proj2 (proj2 (proj2 (proj2 (proj2 (NewJSONStore_load users_json
             (mkFS {[ users_json := Regular [x7b; x7d] ]} 0))))))) [x7b; x7d] None);
      [reflexivity|discriminate|reflexivity].
  - exact (proj1 (proj2 (proj2 (proj2 (proj2 (NewJSONStore_load users_json
             (mkFS {[ users_json := Regular two_under_one ]} 0))))))
             two_under_one [alice; mkUser "1" "Alice" "c@x.com" "t0" "t2"]
             eq_refl ltac:(discriminate) eq_refl).
Defined.

(** ** C9 *)


(** ** C10 *)

Lemma Create_same_id_witness :
  let r := mkUser "1" "Mallory" "m@x.com" "t9" "t9" in
  (Create canonical Written r s_alice fs0).1.1 = mkStore users_json (<["1" := r]> (users s_alice))
  ∧ GetByID "1" (mkStore users_json (<["1" := r]> (users s_alice))) = (r, None)
  ∧ (Create canonical Written r s_alice fs0).2 = None
  ∧ Create canonical Written (mkUser "1" "Mallory" "a@x.com" "t9" "t9") s_alice fs0
    = (s_alice, fs0, Some ErrUserExists).
Proof.
  intros r.
  destruct (Create_same_id canonical Written r s_alice fs0 fair_canonical) as [Hrep _].
  destruct (Hrep alice) as [Hfree _]; [reflexivity|].
  destruct Hfree as (H1 & H2 & H3); [email_free|].
  split; [exact H1|]. split; [exact H2|]. split; [apply H3; reflexivity|].
  destruct (Create_same_id canonical Written (mkUser "1" "Mallory" "a@x.com" "t9" "t9")
              s_alice fs0 fair_canonical) as [Hrep' _].
  destruct (Hrep' alice) as [_ Hown]; [reflexivity|].
  apply Hown. reflexivity.
Defined.

(** * Concrete runs of the further properties *)

Ltac by_decision := apply (bool_decide_unpack _); vm_compute; exact I.

Lemma keyed_empty : keyed ∅.
Proof. intros k u Hk. by rewrite lookup_empty in Hk. Qed.

Lemma GetAll_lists_index_witness :
  (GetAll canonical s_alice).2 = None
  ∧ length (GetAll canonical s_alice).1 = size (users s_alice).
Proof.
  destruct (GetAll_lists_index canonical s_alice fair_canonical) as (H1 & _ & H3 & _).
  by split.
Defined.

Lemma rejected_call_changes_nothing_witness :
  (step (create (mkUser "9" "Eve" "a@x.com" "t3" "t3")) s_alice fs0).1 = (s_alice, fs0).
Proof.
  apply rejected_call_changes_nothing. left. reflexivity.
Defined.

Lemma Delete_NotFound_iff_witness :
  Delete canonical Written "7" s_alice fs0 = (s_alice, fs0, Some ErrUserNotFound)
  ∧ users (Delete canonical Written "1" s_alice fs0).1.1 = delete "1" (users s_alice).
Proof.
  split.
  - apply (proj1 (proj2 (Delete_NotFound_iff canonical Written "7" s_alice fs0))).
    reflexivity.
  - destruct (proj2 (proj2 (Delete_NotFound_iff canonical Written "1" s_alice fs0)))
      as (-> & _); [by eexists|done].
Defined.

Lemma NewJSONStore_succeeds_iff_witness :
  (∃ s, (NewJSONStore None users_json fs0).1 = Ok s)
  ∧ NewJSONStore (Some "permission denied") users_json fs0
    = (Err (ErrOS "permission denied"), fs0).
Proof.
  split.
  - apply (proj1 (NewJSONStore_succeeds_iff None users_json fs0)).
    split; [reflexivity|]. left. reflexivity.
  - apply (proj1 (proj2 (NewJSONStore_succeeds_iff (Some "permission denied")
                           users_json fs0))).
    reflexivity.
Defined.

Lemma load_last_wins_witness :
  let fs := mkFS {[ users_json := Regular two_under_one ]} 0 in
  users (load (mkStore users_json ∅) fs).1.1 !! "1"
  = last (filter (λ u, ID u = "1") (snapshot_records users_json fs)).
Proof.
  intros fs.
  apply (load_last_wins users_json fs _ (load (mkStore users_json ∅) fs).1.2).
  reflexivity.
Defined.

Lemma ids_match_keys_witness :
  filePath (exec [create alice; create bob] s0 (mkFS ∅ 1)).1.1 = users_json
  ∧ NoDup (ID <$> records (users (exec [create alice; create bob] s0 (mkFS ∅ 1)).1.1)).
Proof.
  destruct (ids_match_keys None users_json fs0 s0 (mkFS ∅ 1) [create alice; create bob])
    as (H1 & _ & H3); [reflexivity|].
  by split.
Defined.

Lemma last_success_resyncs_witness :
  let cs := [mkCall canonical disk_full (OpCreate alice); update alice] in
  (exec cs s0 (mkFS ∅ 1)).2 = [Some (ErrOS "no space left on device"); None]
  ∧ (NewJSONStore None users_json (exec cs s0 (mkFS ∅ 1)).1.2).1
    = Ok (mkStore users_json (users (exec cs s0 (mkFS ∅ 1)).1.1)).
Proof.
  intros cs. split; [by vm_compute|].
  apply (last_success_resyncs None users_json fs0 s0 (mkFS ∅ 1) cs
           (exec cs s0 (mkFS ∅ 1)).1.1 (exec cs s0 (mkFS ∅ 1)).1.2
           (exec cs s0 (mkFS ∅ 1)).2).
  - reflexivity.
  - repeat constructor; exact fair_canonical.
  - reflexivity.
  - reflexivity.
  - assert (users (exec cs s0 (mkFS ∅ 1)).1.1 = <["1" := alice]> ∅) as -> by by vm_compute.
    exact wire_roundtrips_alice.
Defined.

Lemma written_snapshot_ids_distinct_witness :
  NoDup (ID <$> snapshot_records users_json (step (create alice) s0 fs0).1.2).
Proof.
  exact (written_snapshot_ids_distinct (create alice) s0 fs0
           (step (create alice) s0 fs0).1.1 (step (create alice) s0 fs0).1.2
           fair_canonical keyed_empty eq_refl wire_roundtrips_alice).
Defined.

Lemma ids_after_call_witness :
  dom (users (Create canonical Written bob s_alice fs0).1.1) = {[ "2" ]} ∪ dom (users s_alice).
Proof.
  apply (proj1 (proj2 (ids_after_call canonical Written s_alice fs0)) bob).
  intros [Hr|Hr]; vm_compute in Hr; discriminate Hr.
Defined.

Lemma read_handlers_never_fail_witness :
  (UserHandler_GetByID "1" s_alice).1 = mkResponse StatusOK (UserBody alice).
Proof.
  apply (proj1 (proj2 (read_handlers_never_fail canonical "1" s_alice fair_canonical))).
  reflexivity.
Defined.

Lemma UserHandler_Create_status_witness :
  status (UserHandler_Create canonical Written "2" "t1" (Bound "Bob" "b@x.com")
            s_alice fs0).1.2 = StatusCreated.
Proof.
  destruct (UserHandler_Create_status canonical Written "2" "t1" (Bound "Bob" "b@x.com")
              s_alice fs0 fair_canonical) as [_ Hb].
  destruct (Hb "Bob" "b@x.com" eq_refl) as (_ & H201 & _).
  apply H201. split; [email_free|reflexivity].
Defined.

Lemma UserHandler_Update_status_witness :
  status (UserHandler_Update canonical Written "1" "t7" (Bound "Alice B" "a@x.com")
            undisturbed s_alice fs0).1.2 = StatusOK
  ∧ status (UserHandler_Update canonical Written "1" "t7" (Bound "Alice B" "a@x.com")
              (deleted_between "1") s_alice fs0).1.2 = StatusInternalServerError.
Proof.
  split.
  - destruct (UserHandler_Update_status canonical Written "1" "t7"
                (Bound "Alice B" "a@x.com") undisturbed s_alice fs0 fair_canonical)
      as [_ Hb].
    destruct (Hb "Alice B" "a@x.com" eq_refl) as (_ & Hover).
    destruct (Hover alice eq_refl) as (_ & H200 & _).
    apply H200. split; [by eexists|]. split; [|reflexivity].
    intros Ht. apply (scan_update canonical _ _ _ fair_canonical) in Ht.
    vm_compute in Ht. discriminate Ht.
  - destruct (UserHandler_Update_status canonical Written "1" "t7"
                (Bound "Alice B" "a@x.com") (deleted_between "1") s_alice fs0
                fair_canonical) as [_ Hb].
    destruct (Hb "Alice B" "a@x.com" eq_refl) as (_ & Hover).
    destruct (Hover alice eq_refl) as (_ & _ & H500 & _).
    apply H500. left. reflexivity.
Defined.

Lemma client_errors_change_nothing_witness :
  (serve (mkExchange canonical Written (POST_users "2" "t1" (BindError "EOF"))) s_alice fs0).1.1
  = (s_alice, fs0).
Proof.
  apply client_errors_change_nothing. left. reflexivity.
Defined.

Lemma created_at_immutable_witness :
  ∃ u', users (serve_all [put "1" "t5" "Al" "al@x.com"; post "2" "t6" "Bob" "b@x.com";
                          put "1" "t7" "Alice" "a2@x.com"] s_alice fs0).1.1.1 !! "1"
        = Some u'
        ∧ CreatedAt u' = CreatedAt alice.
Proof.
  apply created_at_immutable.
  - reflexivity.
  - by_decision.
  - intros x Hx. repeat (apply elem_of_cons in Hx as [->|Hx]; [discriminate|]).
    by apply elem_of_nil in Hx.
Defined.

Lemma read_your_writes_witness :
  (UserHandler_GetByID "2"
     (UserHandler_Create canonical Written "2" "t1" (Bound "Bob" "b@x.com")
        s_alice fs0).1.1.1).1
  = mkResponse StatusOK (UserBody bob).
Proof.
  exact (proj1 (read_your_writes canonical Written "t1" (Bound "Bob" "b@x.com")
                  s_alice fs0) "2" eq_refl).
Defined.

Lemma failed_persist_is_visible_witness :
  ((UserHandler_GetByID "2"
      (UserHandler_Create canonical disk_full "2" "t1" (Bound "Bob" "b@x.com")
         s_alice fs0).1.1.1).1
   = mkResponse StatusOK (UserBody bob)
   ∧ total userCounter
       (UserHandler_Create canonical disk_full "2" "t1" (Bound "Bob" "b@x.com")
          s_alice fs0).2 = 0%Z)
  ∧ (UserHandler_GetByID "1"
       (UserHandler_Update canonical disk_full "1" "t7" (Bound "Alice B" "ab@x.com")
          undisturbed s_alice fs0).1.1.1).1
    = mkResponse StatusOK (UserBody (mkUser "1" "Alice B" "ab@x.com" "t0" "t7"))
  ∧ (UserHandler_GetByID "1"
       (UserHandler_Update canonical Written "1" "t7" (Bound "Alice B" "ab@x.com")
          (deleted_between "1") s_alice fs0).1.1.1).1
    = mkResponse StatusNotFound (ErrorBody "User not found").
Proof.
  split; [|split].
  - exact (proj1 (failed_persist_is_visible canonical disk_full "t1" "Bob" "b@x.com"
                    s_alice fs0) "2" eq_refl).
  - refine (proj1 (proj1 (proj2 (failed_persist_is_visible canonical disk_full "t7"
                                   "Alice B" "ab@x.com" s_alice fs0))
                     "1" alice undisturbed eq_refl eq_refl) _).
    by eexists.
  - exact (proj2 (proj2 (proj1 (proj2 (failed_persist_is_visible canonical Written "t7"
                                         "Alice B" "ab@x.com" s_alice fs0))
                           "1" alice (deleted_between "1") eq_refl eq_refl) eq_refl)).
Defined.

Lemma users_total_counts_index_witness :
  let xs := [post "2" "t1" "Bob" "b@x.com"; post "3" "t2" "Bobby" "b@x.com";
             del "1"; del "1"] in
  total userCounter
    (NewUserHandler canonical None None None None s_alice ++ (serve_all xs s_alice fs0).2)
  = Z.of_nat (size (users (serve_all xs s_alice fs0).1.1.1)).
Proof.
  intros xs. apply users_total_counts_index.
  - exact fair_canonical.
  - by_decision.
  - intros id Hid. repeat (apply elem_of_cons in Hid as [->|Hid]; [reflexivity|]).
    by apply elem_of_nil in Hid.
  - by_decision.
Defined.

Lemma getEnv_default_witness :
  getEnv {[ "PORT" := "9090" ]} "PORT" "8080" = "9090"
  ∧ getEnv {[ "PORT" := "" ]} "PORT" "8080" = "8080"
  ∧ getEnv ∅ "DATA_PATH" "./data/users.json" = "./data/users.json".
Proof.
  split; [|split].
  - apply (proj1 (getEnv_default {[ "PORT" := "9090" ]} "PORT" "8080")).
    + reflexivity.
    + discriminate.
  - apply (proj1 (proj2 (getEnv_default {[ "PORT" := "" ]} "PORT" "8080"))).
    right. reflexivity.
  - apply (proj1 (proj2 (getEnv_default ∅ "DATA_PATH" "./data/users.json"))).
    left. reflexivity.
Defined.
